(** * Round-based ABCI application skills: handlers, reset rounds, registration

    A shallow embedding of three modules of the repository:

    - [packages/valory/skills/abstract_abci/handlers.py]   (module [AbstractAbci])
    - [packages/valory/skills/reset_pause_abci/rounds.py]  (module [ResetPause])
    - [packages/valory/skills/registration_abci/behaviours.py]
                                                           (module [Registration])

    Python objects passed by reference are modelled by explicit state
    passing; exceptions by a sum type; the insertion-ordered [dict] that
    holds a round's payloads by an association list. *)

From Stdlib Require Import ZArith Lia.
From stdpp Require Import gmap strings list fin_maps.

Open Scope string_scope.
Open Scope list_scope.
Open Scope nat_scope.

(** ** Python string operations used by the sources *)

Module PyStr.

(** [s.startswith(p)] *)
Fixpoint startswith (p s : string) : bool :=
  match p, s with
  | EmptyString, _ => true
  | String a p', String b s' => if decide (a = b) then startswith p' s' else false
  | String _ _, EmptyString => false
  end.

(** [sub in s] *)
Fixpoint contains (sub s : string) : bool :=
  startswith sub s ||
  match s with
  | EmptyString => false
  | String _ s' => contains sub s'
  end.

Fixpoint drop (n : nat) (s : string) : string :=
  match n, s with
  | O, _ => s
  | S n', String _ s' => drop n' s'
  | S _, EmptyString => EmptyString
  end.

(** [s.replace(old, new)] for a non-empty [old]: occurrences are replaced
    from the left and do not overlap.  [fuel] bounds the number of
    characters still to be scanned. *)
Fixpoint replace_aux (fuel : nat) (old new s : string) : string :=
  match fuel with
  | O => s
  | S fuel' =>
      match s with
      | EmptyString => EmptyString
      | String c s' =>
          if startswith old s
          then new +:+ replace_aux fuel' old new (drop (String.length old) s)
          else String c (replace_aux fuel' old new s')
      end
  end.

Definition replace (old new s : string) : string :=
  replace_aux (String.length s) old new s.

End PyStr.

(** ** abstract_abci/handlers.py *)

Module AbstractAbci.

(** The performatives of the ABCI protocol the handler is written
    against.  The protocol package is not among the sources; the request
    kinds are those of the consensus engine's request/response protocol,
    each with its response, plus the generic exception response. *)
Inductive Performative :=
| REQUEST_ECHO | REQUEST_FLUSH | REQUEST_INFO | REQUEST_SET_OPTION
| REQUEST_INIT_CHAIN | REQUEST_QUERY | REQUEST_BEGIN_BLOCK
| REQUEST_CHECK_TX | REQUEST_DELIVER_TX | REQUEST_END_BLOCK
| REQUEST_COMMIT | REQUEST_LIST_SNAPSHOTS | REQUEST_OFFER_SNAPSHOT
| REQUEST_LOAD_SNAPSHOT_CHUNK | REQUEST_APPLY_SNAPSHOT_CHUNK
| RESPONSE_EXCEPTION
| RESPONSE_ECHO | RESPONSE_FLUSH | RESPONSE_INFO | RESPONSE_SET_OPTION
| RESPONSE_INIT_CHAIN | RESPONSE_QUERY | RESPONSE_BEGIN_BLOCK
| RESPONSE_CHECK_TX | RESPONSE_DELIVER_TX | RESPONSE_END_BLOCK
| RESPONSE_COMMIT | RESPONSE_LIST_SNAPSHOTS | RESPONSE_OFFER_SNAPSHOT
| RESPONSE_LOAD_SNAPSHOT_CHUNK | RESPONSE_APPLY_SNAPSHOT_CHUNK
| DUMMY.

(** [performative.value] *)
Definition value (p : Performative) : string :=
  match p with
  | REQUEST_ECHO => "request_echo"
  | REQUEST_FLUSH => "request_flush"
  | REQUEST_INFO => "request_info"
  | REQUEST_SET_OPTION => "request_set_option"
  | REQUEST_INIT_CHAIN => "request_init_chain"
  | REQUEST_QUERY => "request_query"
  | REQUEST_BEGIN_BLOCK => "request_begin_block"
  | REQUEST_CHECK_TX => "request_check_tx"
  | REQUEST_DELIVER_TX => "request_deliver_tx"
  | REQUEST_END_BLOCK => "request_end_block"
  | REQUEST_COMMIT => "request_commit"
  | REQUEST_LIST_SNAPSHOTS => "request_list_snapshots"
  | REQUEST_OFFER_SNAPSHOT => "request_offer_snapshot"
  | REQUEST_LOAD_SNAPSHOT_CHUNK => "request_load_snapshot_chunk"
  | REQUEST_APPLY_SNAPSHOT_CHUNK => "request_apply_snapshot_chunk"
  | RESPONSE_EXCEPTION => "response_exception"
  | RESPONSE_ECHO => "response_echo"
  | RESPONSE_FLUSH => "response_flush"
  | RESPONSE_INFO => "response_info"
  | RESPONSE_SET_OPTION => "response_set_option"
  | RESPONSE_INIT_CHAIN => "response_init_chain"
  | RESPONSE_QUERY => "response_query"
  | RESPONSE_BEGIN_BLOCK => "response_begin_block"
  | RESPONSE_CHECK_TX => "response_check_tx"
  | RESPONSE_DELIVER_TX => "response_deliver_tx"
  | RESPONSE_END_BLOCK => "response_end_block"
  | RESPONSE_COMMIT => "response_commit"
  | RESPONSE_LIST_SNAPSHOTS => "response_list_snapshots"
  | RESPONSE_OFFER_SNAPSHOT => "response_offer_snapshot"
  | RESPONSE_LOAD_SNAPSHOT_CHUNK => "response_load_snapshot_chunk"
  | RESPONSE_APPLY_SNAPSHOT_CHUNK => "response_apply_snapshot_chunk"
  | DUMMY => "dummy"
  end.

Definition bytes := list Byte.byte.

(** The keyword arguments a message is built with.  Lists of events,
    validator updates and proof operations are always built empty by the
    handler, so only their length is kept. *)
Inductive Body :=
| Request (tx : bytes)
| Exception (error : string)
| Info (info_data version : string) (app_version last_block_height : Z)
       (last_block_app_hash : bytes)
| Flush
| InitChain (validators : list unit) (app_hash : bytes)
| Query (code : Z) (log info : string) (index : Z) (key value : bytes)
        (proof_ops : list unit) (height : Z) (codespace : string)
| CheckTx (code : Z) (data : bytes) (log info : string)
          (gas_wanted gas_used : Z) (events : list unit) (codespace : string)
| DeliverTx (code : Z) (data : bytes) (log info : string)
            (gas_wanted gas_used : Z) (events : list unit) (codespace : string)
| BeginBlock (events : list unit)
| EndBlock (validator_updates : list unit) (events : list unit)
| Commit (data : bytes) (retain_height : Z).

Record AbciMessage := {
  performative : Performative;
  sender : string;
  to : string;
  message_id : nat;
  target : nat;
  body : Body;
}.

Record AbciDialogue := {
  self_address : string;
  dialogue_label : nat;
}.

(** [dialogue.reply(performative=..., target_message=message, **fields)] *)
Definition reply (dialogue : AbciDialogue) (p : Performative)
    (target_message : AbciMessage) (fields : Body) : AbciMessage :=
  {| performative := p;
     sender := self_address dialogue;
     to := sender target_message;
     message_id := S (message_id target_message);
     target := message_id target_message;
     body := fields |}.

Inductive LogRecord :=
| LogInfo (text : string)
| LogWarning (text : string)
| LogMessage (message : AbciMessage) (message_sender : string).

(** The part of [self.context] the handler touches. *)
Record Context := {
  agent_address : string;
  logger : list LogRecord;
  outbox : list AbciMessage;
}.

Definition log (r : LogRecord) (ctx : Context) : Context :=
  {| agent_address := agent_address ctx;
     logger := logger ctx ++ [r];
     outbox := outbox ctx |}.

Definition put_message (m : AbciMessage) (ctx : Context) : Context :=
  {| agent_address := agent_address ctx;
     logger := logger ctx;
     outbox := outbox ctx ++ [m] |}.

(** [abci_dialogues.create(counterparty=..., performative=..., error=...)] *)
Definition create (ctx : Context) (counterparty : string)
    (p : Performative) (fields : Body) : AbciMessage :=
  {| performative := p;
     sender := agent_address ctx;
     to := counterparty;
     message_id := 1;
     target := 0;
     body := fields |}.

Definition send_exception (message : AbciMessage) (error_message : string)
    (ctx : Context) : Context :=
  let ctx := log (LogInfo ("Sending a response exception message with error message: "
                           +:+ error_message)) ctx in
  let reply := create ctx (sender message) RESPONSE_EXCEPTION (Exception error_message) in
  put_message reply ctx.

Definition info (message : AbciMessage) (dialogue : AbciDialogue) : AbciMessage :=
  let info_data := "" in
  let version := "" in
  let app_version := 0%Z in
  let last_block_height := 0%Z in
  let last_block_app_hash := [] in
  reply dialogue RESPONSE_INFO message
        (Info info_data version app_version last_block_height last_block_app_hash).

Definition flush (message : AbciMessage) (dialogue : AbciDialogue) : AbciMessage :=
  reply dialogue RESPONSE_FLUSH message Flush.

Definition init_chain (message : AbciMessage) (dialogue : AbciDialogue) : AbciMessage :=
  let validators := [] in
  let app_hash := [] in
  reply dialogue RESPONSE_INIT_CHAIN message (InitChain validators app_hash).

Definition query (message : AbciMessage) (dialogue : AbciDialogue) : AbciMessage :=
  reply dialogue RESPONSE_QUERY message (Query 0 "" "" 0 [] [] [] 0 "").

Definition check_tx (message : AbciMessage) (dialogue : AbciDialogue) : AbciMessage :=
  reply dialogue RESPONSE_CHECK_TX message (CheckTx 0 [] "" "" 0 0 [] "").

Definition deliver_tx (message : AbciMessage) (dialogue : AbciDialogue) : AbciMessage :=
  reply dialogue RESPONSE_DELIVER_TX message (DeliverTx 0 [] "" "" 0 0 [] "").

Definition begin_block (message : AbciMessage) (dialogue : AbciDialogue) : AbciMessage :=
  reply dialogue RESPONSE_BEGIN_BLOCK message (BeginBlock []).

Definition end_block (message : AbciMessage) (dialogue : AbciDialogue) : AbciMessage :=
  reply dialogue RESPONSE_END_BLOCK message (EndBlock [] []).

Definition commit (message : AbciMessage) (dialogue : AbciDialogue) : AbciMessage :=
  reply dialogue RESPONSE_COMMIT message (Commit [] 0).

(** [getattr(self, request_type, None)] over the request kinds: the
    handler methods the class defines, looked up by name. *)
Definition getattr (request_type : string)
    : option (AbciMessage -> AbciDialogue -> AbciMessage) :=
  if decide (request_type = "info") then Some info
  else if decide (request_type = "flush") then Some flush
  else if decide (request_type = "init_chain") then Some init_chain
  else if decide (request_type = "query") then Some query
  else if decide (request_type = "check_tx") then Some check_tx
  else if decide (request_type = "deliver_tx") then Some deliver_tx
  else if decide (request_type = "begin_block") then Some begin_block
  else if decide (request_type = "end_block") then Some end_block
  else if decide (request_type = "commit") then Some commit
  else None.

(** [handle]: [recovered] is the result of [abci_dialogues.update(message)],
    [None] when the message fits no dialogue. *)
Definition handle (recovered : option AbciDialogue) (message : AbciMessage)
    (ctx : Context) : Context :=
  match recovered with
  | None => send_exception message "Invalid dialogue." ctx
  | Some abci_dialogue =>
      let performative := value (performative message) in
      if PyStr.contains "response_" performative then
        send_exception message
          ("can only handle ABCI requests, received '" +:+ performative +:+ "'") ctx
      else
        let request_type := PyStr.replace "request_" "" performative in
        let ctx := log (LogInfo ("Received ABCI request of type " +:+ request_type)) ctx in
        match getattr request_type with
        | None =>
            log (LogWarning ("cannot handle request '" +:+ request_type
                             +:+ "', ignoring...")) ctx
        | Some handler =>
            let ctx := log (LogMessage message (sender message)) ctx in
            let response := handler message abci_dialogue in
            put_message response ctx
        end
  end.

(** The request kinds: performatives whose value starts with [request_]. *)
Definition is_request (p : Performative) : bool :=
  PyStr.startswith "request_" (value p).

(** A request kind for which the handler has a method. *)
Definition has_method (p : Performative) : bool :=
  match getattr (PyStr.replace "request_" "" (value p)) with
  | Some _ => true
  | None => false
  end.

Definition is_exception_reply (m : AbciMessage) : bool :=
  match performative m, body m with
  | RESPONSE_EXCEPTION, Exception _ => true
  | _, _ => false
  end.

(** The [code] and [data] fields of a transaction response. *)
Definition response_code (b : Body) : option Z :=
  match b with
  | CheckTx code _ _ _ _ _ _ _ | DeliverTx code _ _ _ _ _ _ _ => Some code
  | _ => None
  end.

Definition response_data (b : Body) : option bytes :=
  match b with
  | CheckTx _ data _ _ _ _ _ _ | DeliverTx _ data _ _ _ _ _ _ => Some data
  | _ => None
  end.

(** A [request_echo] from the consensus engine, in a fresh context. *)
Definition echo_request : AbciMessage :=
  {| performative := REQUEST_ECHO; sender := "tendermint"; to := "agent";
     message_id := 1; target := 0; body := Request [] |}.

Definition echo_dialogue : AbciDialogue :=
  {| self_address := "agent"; dialogue_label := 0 |}.

Definition empty_context : Context :=
  {| agent_address := "agent"; logger := []; outbox := [] |}.

End AbstractAbci.

(** ** Exceptions and results *)

(** Which of the two guards of [check_payload] / [process_payload] raised. *)
Inductive Refusal :=
| NotInParticipants (sender : string)
| AlreadySent (sender : string) (round_id : string).

Inductive Exn :=
| TransactionNotValidError (why : Refusal)
| ABCIAppInternalError (why : option Refusal)
| KeyNotFoundError (key : string)
| TypeError
| KeyError (key : string)
| AttributeError
| RuntimeError (message : string)
| UnicodeDecodeError.

Inductive result (A : Type) :=
| Ok (a : A)
| Raise (e : Exn).
Arguments Ok {A} a.
Arguments Raise {A} e.

#[global] Instance result_ret : MRet result := fun A a => Ok a.
#[global] Instance result_bind : MBind result := fun A B f m =>
  match m with
  | Ok a => f a
  | Raise e => Raise e
  end.

(** ** reset_pause_abci/rounds.py *)

Module ResetPause.

Abbreviation Address := string.

(** [Event] *)
Inductive Event := DONE | ROUND_TIMEOUT | NO_MAJORITY | RESET_TIMEOUT.

(** A [ResetPayload]: the sender and the attribute named by
    [payload_attribute = "period_count"]. *)
Record BaseTxPayload := {
  sender : Address;
  period_count : Z;
}.

#[global] Instance BaseTxPayload_eq_dec : EqDecision BaseTxPayload.
Proof. solve_decision. Defined.

(** Values held by the synchronized state store. *)
Inductive Value :=
| VNone
| VInt (z : Z)
| VStr (s : string)
| VAddrs (l : list Address).

(** [x in container] *)
Definition py_in (x : string) (container : Value) : result bool :=
  match container with
  | VAddrs l => Ok (bool_decide (x ∈ l))
  | VStr s => Ok (PyStr.contains x s)
  | VNone | VInt _ => Raise TypeError
  end.

(** [len(container)] *)
Definition len (container : Value) : result nat :=
  match container with
  | VAddrs l => Ok (length l)
  | VStr s => Ok (String.length s)
  | VNone | VInt _ => Raise TypeError
  end.

(** The period state with its store: the key/value document of the
    current period ([db.get_all()]), the enumerated persisted keys
    ([db.cross_period_persisted_keys]), the values seeded before the first
    round of a period ([db.initial_data]) and the period counter. *)
Record BasePeriodState := {
  db_data : gmap string Value;
  cross_period_persisted_keys : list string;
  initial_data : gmap string Value;
  db_period_count : Z;
}.

(** An insertion-ordered [dict] from sender to payload. *)
Abbreviation Collection := (list (Address * BaseTxPayload)).

(** [key in d] *)
Definition dict_contains {V} (key : string) (d : list (string * V)) : bool :=
  bool_decide (key ∈ d.*1).

(** [d[key] = v]: an existing key keeps its position, a new one is
    appended. *)
Fixpoint dict_set {V} (key : string) (v : V) (d : list (string * V))
    : list (string * V) :=
  match d with
  | [] => [(key, v)]
  | (k, w) :: d' =>
      if decide (k = key) then (k, v) :: d' else (k, w) :: dict_set key v d'
  end.

(** The mutable part of a round object: [self.collection] and
    [self.period_state]. *)
Record Round := {
  round_id : string;
  collection : Collection;
  period_state : BasePeriodState;
}.

Definition with_collection (self : Round) (c : Collection) : Round :=
  {| round_id := round_id self; collection := c; period_state := period_state self |}.

(** *** The base classes, which are not among the sources *)

(** Modelled from the spec: [db.get_strict] of the state store
    (abstract_round_abci/base.py is missing): "get_strict(key) -> value |
    fails with KeyNotFoundError if absent". *)
Definition get_strict (ps : BasePeriodState) (key : string) : result Value :=
  match db_data ps !! key with
  | Some v => Ok v
  | None => Raise (KeyNotFoundError key)
  end.

(** Modelled from the spec: [db.get_all] (base.py is missing), the
    key/value document of the current period. *)
Definition get_all (ps : BasePeriodState) : gmap string Value := db_data ps.

(** Modelled from the spec: the properties [participants],
    [all_participants] and [nb_participants] of [BasePeriodState] (base.py
    is missing): both sets are keys of the store, "populated for every
    round", and "nb_participants = |participants|". *)
Definition participants (ps : BasePeriodState) : result Value :=
  get_strict ps "participants".

(** Modelled from the spec: [BasePeriodState.all_participants] (base.py
    is missing), the other populated participant set. *)
Definition all_participants (ps : BasePeriodState) : result Value :=
  get_strict ps "all_participants".

(** Modelled from the spec: [BasePeriodState.nb_participants] (base.py is
    missing): "nb_participants = |participants|". *)
Definition nb_participants (ps : BasePeriodState) : result nat :=
  p ← participants ps; len p.

(** Modelled from the spec: [BasePeriodState.update] (base.py is missing).
    Section 4.1: update "returns a new immutable snapshot layering the
    given keys over the previous one", and "on period reset, only keys
    named in the persisted-key list survive; everything else reverts to
    the app's declared defaults".  Both rounds call [update] with a
    [period_count], that is at a period reset: the snapshot they obtain
    carries that counter and layers the given keys over the declared
    defaults, the values seeded before the first round of a period. *)
Definition update (ps : BasePeriodState) (period_count : Z)
    (kwargs : gmap string Value) : BasePeriodState :=
  {| db_data := kwargs ∪ initial_data ps;
     cross_period_persisted_keys := cross_period_persisted_keys ps;
     initial_data := initial_data ps;
     db_period_count := period_count |}.

(** A call [f(k1=v1, ..., **d)]: Python raises [TypeError] when [d]
    repeats an explicit keyword.  [named] are the explicit keywords that
    are not part of the returned dictionary ([period_count]). *)
Definition keywords (named : list string) (explicit : list (string * Value))
    (d : gmap string Value) : result (gmap string Value) :=
  if bool_decide (Exists (λ k, is_Some (d !! k)) (named ++ explicit.*1))
  then Raise TypeError
  else Ok (list_to_map explicit ∪ d).

(** The attribute named by [payload_attribute]. *)
Definition attribute (e : Address * BaseTxPayload) : Z := period_count e.2.

(** The size of the payload group of value [v]. *)
Definition votes (c : Collection) (v : Z) : nat :=
  length (filter (λ e, attribute e = v) c).

(** Modelled from the spec: the quorum of [CollectSameUntilThresholdRound]
    (base.py is missing), "> 2/3 of nb_participants". *)
Definition meets_quorum (nb : nat) (count : nat) : bool :=
  bool_decide (2 * nb < 3 * count).

(** Some payload group meets the quorum. *)
Definition quorum_group (nb : nat) (c : Collection) : Prop :=
  Exists (λ e, meets_quorum nb (votes c (attribute e)) = true) c.

(** Modelled from the spec: [threshold_reached] (base.py is missing):
    "true when some payload value has been submitted by a set of senders
    whose count meets or exceeds the configured quorum", payloads being
    grouped by the attribute. *)
Definition threshold_reached (self : Round) : result bool :=
  nb ← nb_participants (period_state self);
  Ok (bool_decide (quorum_group nb (collection self))).

(** One step of the scan for a largest payload group: the value held so
    far is replaced by one with strictly more votes. *)
Definition better (c : Collection) (best : option Z) (e : Address * BaseTxPayload)
    : option Z :=
  match best with
  | None => Some (attribute e)
  | Some b => if decide (votes c b < votes c (attribute e)) then Some (attribute e) else Some b
  end.

(** Modelled from the spec: "the largest payload group" of
    [most_voted_payload] and [is_majority_possible] (base.py is missing).
    The payloads are scanned in insertion order and the first of the
    largest groups is kept; the spec does not say which of two equally
    large groups is meant. *)
Definition largest_group (c : Collection) : option Z := foldl (better c) None c.

(** Modelled from the spec: [most_voted_payload] (base.py is missing):
    "the value of payload_attribute shared by the largest payload group;
    defined only when threshold_reached". *)
Definition most_voted_payload (self : Round) : result Z :=
  nb ← nb_participants (period_state self);
  match largest_group (collection self) with
  | Some v =>
      if meets_quorum nb (votes (collection self) v) then Ok v
      else Raise (ABCIAppInternalError None)
  | None => Raise (ABCIAppInternalError None)
  end.

(** The size of the largest payload group. *)
Definition largest_count (c : Collection) : nat :=
  match largest_group c with
  | Some v => votes c v
  | None => 0
  end.

(** Modelled from the spec: [is_majority_possible] (base.py is missing):
    false once the largest group, "even if every remaining non-responding
    participant were to vote for the currently-largest group, could not
    reach quorum". *)
Definition is_majority_possible (c : Collection) (nb_participants : nat) : bool :=
  meets_quorum nb_participants (largest_count c + (nb_participants - length c)).

(** The keywords the rounds bind explicitly when they call [update]. *)
Definition reserved : list string :=
  ["period_count"; "participants"; "all_participants"].

(** The invariants of the data model on a period state: both participant
    sets are populated, every cross-period-persisted key has been
    written, and no key of the document is named like a keyword of
    [update]. *)
Definition populated (ps : BasePeriodState) : Prop :=
  (∃ l, participants ps = Ok (VAddrs l)) ∧
  (∃ l, all_participants ps = Ok (VAddrs l)) ∧
  (∀ k, k ∈ cross_period_persisted_keys ps → is_Some (db_data ps !! k) ∧ k ∉ reserved) ∧
  db_data ps !! "period_count" = None.

(** *** ResetRound *)

Module ResetRound.

Definition end_block (self : Round) : result (option (BasePeriodState * Event)) :=
  reached ← threshold_reached self;
  if reached : bool then
    let state_data := get_all (period_state self) in
    let state_data := <["tx_hashes_history" := VNone]> state_data in
    most_voted ← most_voted_payload self;
    kwargs ← keywords ["period_count"] [] state_data;
    let state := update (period_state self) most_voted kwargs in
    Ok (Some (state, DONE))
  else
    nb ← nb_participants (period_state self);
    if negb (is_majority_possible (collection self) nb)
    then Ok (Some (period_state self, NO_MAJORITY))
    else Ok None.

End ResetRound.

(** *** ResetAndPauseRound *)

Module ResetAndPauseRound.

(** The methods that read or write [self]: a state and exception monad
    over the round object. *)
Definition M (A : Type) : Type := Round -> result A * Round.

Definition ret {A} (a : A) : M A := fun self => (Ok a, self).
Definition bind {A B} (m : M A) (f : A -> M B) : M B :=
  fun self =>
    match m self with
    | (Ok a, self') => f a self'
    | (Raise e, self') => (Raise e, self')
    end.
Definition raise {A} (e : Exn) : M A := fun self => (Raise e, self).
Definition lift {A} (r : result A) : M A := fun self => (r, self).
Definition get_collection : M Collection := fun self => (Ok (collection self), self).
Definition get_period_state : M BasePeriodState :=
  fun self => (Ok (period_state self), self).
Definition get_round_id : M string := fun self => (Ok (round_id self), self).
Definition set_collection (c : Collection) : M unit :=
  fun self => (Ok tt, with_collection self c).

Notation "'let*' x ':=' m 'in' k" := (bind m (fun x => k))
  (at level 10, x name, m at level 100, k at level 200).

Definition process_payload (payload : BaseTxPayload) : M unit :=
  let sender := sender payload in
  let* ps := get_period_state in
  let* everyone := lift (all_participants ps) in
  let* is_in := lift (py_in sender everyone) in
  if negb is_in then raise (ABCIAppInternalError (Some (NotInParticipants sender)))
  else
    let* c := get_collection in
    let* rid := get_round_id in
    if dict_contains sender c
    then raise (ABCIAppInternalError (Some (AlreadySent sender rid)))
    else set_collection (dict_set sender payload c).

Definition check_payload (payload : BaseTxPayload) : M unit :=
  let* ps := get_period_state in
  let* everyone := lift (all_participants ps) in
  let* sender_in_participant_set := lift (py_in (sender payload) everyone) in
  if negb sender_in_participant_set
  then raise (TransactionNotValidError (NotInParticipants (sender payload)))
  else
    let* c := get_collection in
    let* rid := get_round_id in
    if dict_contains (sender payload) c
    then raise (TransactionNotValidError (AlreadySent (sender payload) rid))
    else ret tt.

(** [for key in cross_period_persisted_keys: extra_kwargs[key] = get_strict(key)] *)
Fixpoint persisted (ps : BasePeriodState) (keys : list string)
    (extra_kwargs : gmap string Value) : result (gmap string Value) :=
  match keys with
  | [] => Ok extra_kwargs
  | key :: keys' =>
      v ← get_strict ps key;
      persisted ps keys' (<[key := v]> extra_kwargs)
  end.

Definition end_block (self : Round) : result (option (BasePeriodState * Event)) :=
  reached ← threshold_reached self;
  if reached : bool then
    extra_kwargs ← persisted (period_state self)
                     (cross_period_persisted_keys (period_state self)) ∅;
    most_voted ← most_voted_payload self;
    p ← participants (period_state self);
    everyone ← all_participants (period_state self);
    kwargs ← keywords ["period_count"]
               [("participants", p); ("all_participants", everyone)] extra_kwargs;
    let state := update (period_state self) most_voted kwargs in
    Ok (Some (state, DONE))
  else
    nb ← nb_participants (period_state self);
    if negb (is_majority_possible (collection self) nb)
    then Ok (Some (period_state self, NO_MAJORITY))
    else Ok None.

End ResetAndPauseRound.

(** [process_payload] called for each payload of a list in turn, on the
    same round object; a call that raises leaves the object as the
    exception found it. *)
Fixpoint process_all (payloads : list BaseTxPayload) (self : Round) : Round :=
  match payloads with
  | [] => self
  | payload :: payloads' =>
      process_all payloads' (ResetAndPauseRound.process_payload payload self).2
  end.

(** [d[key]] on an insertion-ordered dictionary. *)
Fixpoint dict_get {V} (key : string) (d : list (string * V)) : option V :=
  match d with
  | [] => None
  | (k, v) :: d' => if decide (k = key) then Some v else dict_get key d'
  end.

(** *** ResetPauseABCIApp *)

Module ResetPauseABCIApp.

(** The round classes the application names. *)
Inductive AppState :=
| ResetAndPauseRound
| ResetRound
| FinishedResetAndPauseRound
| FinishedResetRound.

#[global] Instance AppState_eq_dec : EqDecision AppState.
Proof. solve_decision. Defined.

#[global] Instance Event_eq_dec : EqDecision Event.
Proof. solve_decision. Defined.

Definition initial_round_cls : AppState := ResetAndPauseRound.

Definition initial_states : list AppState := [ResetRound; ResetAndPauseRound].

(** [transition_function]: a dictionary of dictionaries; a class without
    an entry has no key. *)
Definition transition_function (state : AppState) : option (list (Event * AppState)) :=
  match state with
  | ResetAndPauseRound =>
      Some [(DONE, FinishedResetAndPauseRound);
            (RESET_TIMEOUT, ResetAndPauseRound);
            (NO_MAJORITY, ResetAndPauseRound)]
  | ResetRound =>
      Some [(DONE, FinishedResetRound);
            (RESET_TIMEOUT, ResetRound);
            (NO_MAJORITY, ResetRound)]
  | FinishedResetAndPauseRound => Some []
  | FinishedResetRound => None
  end.

Definition final_states : list AppState :=
  [FinishedResetAndPauseRound; FinishedResetRound].

(** [event_to_timeout], in seconds. *)
Definition event_to_timeout : list (Event * Z) :=
  [(ROUND_TIMEOUT, 30%Z); (RESET_TIMEOUT, 30%Z)].

(** [transition_function[state][event]], [None] for a missing key. *)
Fixpoint successor (event : Event) (edges : list (Event * AppState)) : option AppState :=
  match edges with
  | [] => None
  | (e, next) :: edges' => if decide (e = event) then Some next else successor event edges'
  end.

Definition transition (state : AppState) (event : Event) : option AppState :=
  match transition_function state with
  | Some edges => successor event edges
  | None => None
  end.

(** The states the application can be in after the events [events],
    started in [state]; an event without a transition is refused. *)
Fixpoint run (state : AppState) (events : list Event) : option AppState :=
  match events with
  | [] => Some state
  | event :: events' =>
      match transition state event with
      | Some next => run next events'
      | None => None
      end
  end.

End ResetPauseABCIApp.

End ResetPause.

(** ** registration_abci/behaviours.py *)

Module Registration.

#[local] Set Warnings "-register-all".

(** Values produced by [json.loads] and held in message bodies.  Numbers
    are integers. *)
Inductive Json :=
| JNull
| JBool (b : bool)
| JNum (z : Z)
| JStr (s : string)
| JArr (l : list Json)
| JObj (kv : list (string * Json)).

Definition is_empty {A} (l : list A) : bool :=
  match l with
  | [] => true
  | _ :: _ => false
  end.

(** [bool(x)], as tested by [if not x]. *)
Definition truthy (x : Json) : bool :=
  match x with
  | JNull => false
  | JBool b => b
  | JNum z => negb (z =? 0)%Z
  | JStr s => negb (bool_decide (s = ""))
  | JArr l => negb (is_empty l)
  | JObj kv => negb (is_empty kv)
  end.

Fixpoint assoc {V} (key : string) (kv : list (string * V)) : option V :=
  match kv with
  | [] => None
  | (k, v) :: kv' => if decide (k = key) then Some v else assoc key kv'
  end.

(** [x[key]] for a string [key]. *)
Definition getitem (x : Json) (key : string) : result Json :=
  match x with
  | JObj kv =>
      match assoc key kv with
      | Some v => Ok v
      | None => Raise (KeyError key)
      end
  | _ => Raise TypeError
  end.

(** [x.get(key)] *)
Definition get (x : Json) (key : string) : result Json :=
  match x with
  | JObj kv => Ok (default JNull (assoc key kv))
  | _ => Raise AttributeError
  end.

(** [x == n] for an integer literal [n]. *)
Definition eq_int (x : Json) (n : Z) : bool :=
  match x with
  | JNum z => (z =? n)%Z
  | JBool b => ((if b then 1 else 0) =? n)%Z
  | _ => false
  end.

Definition hashable (x : Json) : bool :=
  match x with
  | JArr _ | JObj _ => false
  | _ => true
  end.

(** Equality of hashable values as [set] and [dict] keys compare them:
    [True == 1] and [False == 0]. *)
Definition key_eqb (a b : Json) : bool :=
  match a, b with
  | JNull, JNull => true
  | JStr s, JStr t => bool_decide (s = t)
  | JNum y, JNum z => (y =? z)%Z
  | JBool x, JNum z | JNum z, JBool x => ((if x then 1 else 0) =? z)%Z
  | JBool x, JBool y => bool_decide (x = y)
  | _, _ => false
  end.

Definition key_in (a : Json) (l : list Json) : bool := existsb (key_eqb a) l.

Fixpoint dedupe (l : list Json) (seen : list Json) : list Json :=
  match l with
  | [] => []
  | x :: l' => if key_in x seen then dedupe l' seen else x :: dedupe l' (x :: seen)
  end.

Fixpoint chars (s : string) : list Json :=
  match s with
  | EmptyString => []
  | String c s' => JStr (String c EmptyString) :: chars s'
  end.

(** [set(x)].  The elements are listed by first occurrence; the sources
    do not depend on the iteration order of the set. *)
Definition set (x : Json) : result (list Json) :=
  match x with
  | JArr l => if forallb hashable l then Ok (dedupe l []) else Raise TypeError
  | JObj kv => Ok (dedupe (JStr <$> kv.*1) [])
  | JStr s => Ok (dedupe (chars s) [])
  | _ => Raise TypeError
  end.

(** [d[key] = v] on a dictionary keyed by hashable values. *)
Fixpoint dict_set (key v : Json) (d : list (Json * Json)) : list (Json * Json) :=
  match d with
  | [] => [(key, v)]
  | (k, w) :: d' =>
      if key_eqb k key then (k, v) :: d' else (k, w) :: dict_set key v d'
  end.

(** [params[key] = v] on a decoded value. *)
Fixpoint obj_set (key : string) (v : Json) (kv : list (string * Json))
    : list (string * Json) :=
  match kv with
  | [] => [(key, v)]
  | (k, w) :: kv' =>
      if decide (k = key) then (k, v) :: kv' else (k, w) :: obj_set key v kv'
  end.

Definition setitem (x : Json) (key : string) (v : Json) : result Json :=
  match x with
  | JObj kv => Ok (JObj (obj_set key v kv))
  | _ => Raise TypeError
  end.

(** The outcome of [json.loads(result.body.decode())] on the body of an
    HTTP response: the bytes are not text, the text is not JSON
    ([json.JSONDecodeError]), or a value. *)
Inductive Decoded :=
| NotText
| NotJson
| Parsed (response : Json).

(** The performatives of the contract API protocol (its package is not
    among the sources); the behaviour compares a response with
    [GET_STATE] only. *)
Inductive ContractPerformative :=
| GET_DEPLOY_TRANSACTION | GET_RAW_TRANSACTION | GET_RAW_MESSAGE | GET_STATE
| STATE | RAW_TRANSACTION | RAW_MESSAGE | ERROR.

#[global] Instance ContractPerformative_eq_dec : EqDecision ContractPerformative.
Proof. solve_decision. Defined.

(** A contract API response: its performative and [state.body]. *)
Record ContractApiMessage := {
  performative : ContractPerformative;
  state_body : list (string * Json);
}.

(** [self.params] and [self.context]. *)
Record Params := {
  tendermint_com_url : string;
  tendermint_url : string;
  service_registry_address : option string;
  sleep_time : Z;
  agent_address : string;
}.

(** What the outside world answers to the requests of one [async_act]. *)
Record World := {
  params_reply : Decoded;
  verify_contract_reply : ContractApiMessage;
  get_service_info_reply : ContractApiMessage;
  update_reply : Decoded;
  start_reply : Decoded;
}.

(** The attributes of the behaviour: [local_tendermint_params] ([JNull]
    is [None]), the dictionary [initial_data.get("registered_addresses",
    {})] of the period state, and the class-level [collected]. *)
Record Behaviour := {
  local_tendermint_params : Json;
  registered_addresses : list (Json * Json);
  collected : list (string * string);
}.

(** The requests and suspensions of the generator, in order.  The methods
    of the base behaviour that suspend it ([_do_request],
    [get_contract_api_response], [sleep], [send_a2a_transaction],
    [wait_until_round_end]) and [set_done] are not among the sources: each
    is recorded as an action, and what it returns is taken from the
    [World].  The content of a POST is the value whose [str] is sent.
    Calls of the logger are left out. *)
Inductive Action :=
| HttpRequest (method url : string) (content : option Json)
| ContractCall (contract_callable : string)
| TendermintRequest (address : Json)
| Sleep (seconds : Z)
| SendA2ATransaction (sender : string)
| WaitUntilRoundEnd
| SetDone.

#[global] Instance Json_inhabited : Inhabited Json := populate JNull.

(** Generators: state, trace of actions and exceptions. *)
Definition Gen (A : Type) : Type := Behaviour -> result A * Behaviour * list Action.

Definition ret {A} (a : A) : Gen A := fun self => (Ok a, self, []).
Definition bind {A B} (m : Gen A) (f : A -> Gen B) : Gen B :=
  fun self =>
    match m self with
    | (Ok a, self', t) =>
        match f a self' with
        | (r, self'', t') => (r, self'', t ++ t')
        end
    | (Raise e, self', t) => (Raise e, self', t)
    end.
Definition raise {A} (e : Exn) : Gen A := fun self => (Raise e, self, []).
Definition lift {A} (r : result A) : Gen A := fun self => (r, self, []).
Definition emit (a : Action) : Gen unit := fun self => (Ok tt, self, [a]).
Definition read {A} (f : Behaviour -> A) : Gen A := fun self => (Ok (f self), self, []).
Definition set_local_tendermint_params (x : Json) : Gen unit :=
  fun self =>
    (Ok tt, {| local_tendermint_params := x;
               registered_addresses := registered_addresses self;
               collected := collected self |}, []).
Definition set_registered_addresses (info : list (Json * Json)) : Gen unit :=
  fun self =>
    (Ok tt, {| local_tendermint_params := local_tendermint_params self;
               registered_addresses := info;
               collected := collected self |}, []).

Notation "'let*' x ':=' m 'in' k" := (bind m (fun x => k))
  (at level 10, x name, m at level 100, k at level 200).
Notation "m ';;' k" := (bind m (fun _ => k))
  (at level 100, k at level 200, right associativity).

Section Behaviours.

Variable params : Params.
Variable world : World.

(** [yield from self.sleep(seconds)] *)
Definition sleep (seconds : Z) : Gen unit := emit (Sleep seconds).

Definition tendermint_parameter_url : string :=
  tendermint_com_url params +:+ "/params".

Definition is_correct_contract : Gen Json :=
  emit (ContractCall "verify_contract") ;;
  let contract_api_response := verify_contract_reply world in
  if negb (bool_decide (performative contract_api_response = GET_STATE))
  then ret (JBool false)
  else lift (getitem (JObj (state_body contract_api_response)) "verified").

Definition get_service_info : Gen Json :=
  emit (ContractCall "get_service_info") ;;
  let contract_api_response := get_service_info_reply world in
  if negb (bool_decide (performative contract_api_response = GET_STATE))
  then ret (JObj [])
  else lift (getitem (JObj (state_body contract_api_response)) "verified").

Definition get_addresses : Gen bool :=
  match service_registry_address params with
  | None => raise (RuntimeError "Service registry contract address not provided")
  | Some _ =>
      let* is_deployed := is_correct_contract in
      if negb (truthy is_deployed) then ret false
      else
        let* service_info := get_service_info in
        if negb (truthy service_info) then ret false
        else
          let* instances := lift (getitem service_info "agent_instances") in
          let* registered_addresses := lift (set instances) in
          if is_empty registered_addresses then ret false
          else
            let my_address := agent_address params in
            if negb (key_in (JStr my_address) registered_addresses) then ret false
            else
              let info := (fun a => (a, JNull)) <$> registered_addresses in
              let info := dict_set (JStr (agent_address params))
                                   (JStr (tendermint_url params)) info in
              set_registered_addresses info ;;
              ret true
  end.

Definition make_tendermint_request (address : Json) : Gen unit :=
  emit (TendermintRequest address).

Definition get_tendermint_configuration : Gen bool :=
  let url := tendermint_parameter_url in
  emit (HttpRequest "GET" url None) ;;
  match params_reply world with
  | NotText => raise UnicodeDecodeError
  | Parsed response =>
      set_local_tendermint_params response ;;
      ret true
  | NotJson => ret false
  end.

Definition update_tendermint_configuration : Gen bool :=
  let url := tendermint_parameter_url in
  let* params := read local_tendermint_params in
  let* addresses := read registered_addresses in
  let* params := lift (setitem params "p2p_seeds" (JArr addresses.*2)) in
  set_local_tendermint_params params ;;
  emit (HttpRequest "POST" url (Some params)) ;;
  match update_reply world with
  | NotText => raise UnicodeDecodeError
  | Parsed response =>
      let* status := lift (getitem response "status") in
      ret (eq_int status 200)
  | NotJson => ret false
  end.

Definition start_tendermint : Gen bool :=
  let url := tendermint_com_url params +:+ "/start" in
  emit (HttpRequest "GET" url None) ;;
  match start_reply world with
  | NotText => raise UnicodeDecodeError
  | Parsed response =>
      let* status := lift (get response "status") in
      if eq_int status 200 then ret true
      else
        sleep (sleep_time params) ;;
        ret false
  | NotJson =>
      sleep (sleep_time params) ;;
      ret false
  end.

(** [set(self.registered_addresses).difference(self.collected)] *)
Definition not_yet_collected (self : Behaviour) : list Json :=
  filter (fun a => key_in a (JStr <$> (collected self).*1) = false)
         (dedupe (registered_addresses self).*1 []).

(** [any(map(f, xs))] for an [f] that returns [None]: every call is
    made. *)
Fixpoint for_each (f : Json -> Gen unit) (xs : list Json) : Gen unit :=
  match xs with
  | [] => ret tt
  | x :: xs' => f x ;; for_each f xs'
  end.

(** [RegistrationBaseBehaviour.async_act]: the payload is built, sent
    and the round awaited. *)
Definition base_async_act : Gen unit :=
  emit (SendA2ATransaction (agent_address params)) ;;
  emit WaitUntilRoundEnd ;;
  emit SetDone.

(** [RegistrationStartupBehaviour.async_act] *)
Definition async_act : Gen unit :=
  let* local := read local_tendermint_params in
  let* successful :=
    (if negb (truthy local) then get_tendermint_configuration else ret true) in
  if negb successful then sleep (sleep_time params)
  else
    let* registered := read registered_addresses in
    let* successful :=
      (if is_empty registered then get_addresses else ret true) in
    if negb successful then sleep (sleep_time params)
    else
      let* pending := read not_yet_collected in
      for_each make_tendermint_request pending ;;
      let* pending := read not_yet_collected in
      if negb (is_empty pending) then sleep (sleep_time params)
      else
        let* successful := update_tendermint_configuration in
        if negb successful then sleep (sleep_time params)
        else
          let* successful := start_tendermint in
          if negb successful then sleep (sleep_time params)
          else base_async_act.

(** The rest of [async_act] from each of its steps on: [async_act]
    is [from_fetch] behind the test of [local_tendermint_params]. *)
Definition from_start : Gen unit :=
  let* successful := start_tendermint in
  if negb successful then sleep (sleep_time params)
  else base_async_act.

Definition from_update : Gen unit :=
  let* successful := update_tendermint_configuration in
  if negb successful then sleep (sleep_time params)
  else from_start.

Definition from_collect : Gen unit :=
  let* pending := read not_yet_collected in
  for_each make_tendermint_request pending ;;
  let* pending := read not_yet_collected in
  if negb (is_empty pending) then sleep (sleep_time params)
  else from_update.

Definition from_registry : Gen unit :=
  let* registered := read registered_addresses in
  let* successful :=
    (if is_empty registered then get_addresses else ret true) in
  if negb successful then sleep (sleep_time params)
  else from_collect.

Definition from_fetch (successful : Gen bool) : Gen unit :=
  let* successful := successful in
  if negb successful then sleep (sleep_time params)
  else from_registry.

End Behaviours.

(** The outcome, the final state and the trace of a run. *)
Definition outcome {A} (run : result A * Behaviour * list Action) : result A := run.1.1.
Definition final {A} (run : result A * Behaviour * list Action) : Behaviour := run.1.2.
Definition trace {A} (run : result A * Behaviour * list Action) : list Action := run.2.

(** A run behind the actions [t]. *)
Definition behind {A} (t : list Action) (run : result A * Behaviour * list Action)
    : result A * Behaviour * list Action :=
  (outcome run, final run, t ++ trace run).

(** Neither a sleep nor the end of the behaviour. *)
Definition quiet (a : Action) : Prop :=
  match a with
  | Sleep _ | SetDone => False
  | _ => True
  end.

Definition sleeps (t : list Action) : list Z :=
  omap (fun a => match a with Sleep s => Some s | _ => None end) t.

Definition is_registry_query (a : Action) : bool :=
  match a with
  | ContractCall _ => true
  | _ => false
  end.

(** The steps of [async_act] that call the outside world and report
    success or failure. *)
Inductive Step := ConfigFetch | RegistryLookup | ConfigUpdate | NodeStart.

Definition run_step (params : Params) (world : World) (s : Step) : Gen bool :=
  match s with
  | ConfigFetch => get_tendermint_configuration params world
  | RegistryLookup => get_addresses params world
  | ConfigUpdate => update_tendermint_configuration params world
  | NodeStart => start_tendermint params world
  end.

(** The rest of [async_act] from step [s] on. *)
Definition resume (params : Params) (world : World) (s : Step) : Gen unit :=
  match s with
  | ConfigFetch => from_fetch params world (get_tendermint_configuration params world)
  | RegistryLookup =>
      let* successful := get_addresses params world in
      if negb successful then sleep (sleep_time params)
      else from_collect params world
  | ConfigUpdate => from_update params world
  | NodeStart => from_start params world
  end.

(** Step [s], run in [self], reports success and leaves [self']. *)
Definition passes (params : Params) (world : World) (s : Step)
    (self self' : Behaviour) : Prop :=
  outcome (run_step params world s self) = Ok true ∧
  final (run_step params world s self) = self'.

(** [attempts params world self s self']: [async_act], entered in state
    [self], comes to run step [s], in state [self'].  A step whose
    result is already held is skipped; the steps before [s] have
    passed. *)
Inductive attempts (params : Params) (world : World) (self : Behaviour)
    : Step -> Behaviour -> Prop :=
| attempts_fetch :
    truthy (local_tendermint_params self) = false ->
    attempts params world self ConfigFetch self
| attempts_registry_held :
    truthy (local_tendermint_params self) = true ->
    registered_addresses self = [] ->
    attempts params world self RegistryLookup self
| attempts_registry self1 :
    truthy (local_tendermint_params self) = false ->
    passes params world ConfigFetch self self1 ->
    registered_addresses self1 = [] ->
    attempts params world self RegistryLookup self1
| attempts_update_held :
    truthy (local_tendermint_params self) = true ->
    registered_addresses self <> [] ->
    not_yet_collected self = [] ->
    attempts params world self ConfigUpdate self
| attempts_update_fetched self1 :
    truthy (local_tendermint_params self) = false ->
    passes params world ConfigFetch self self1 ->
    registered_addresses self1 <> [] ->
    not_yet_collected self1 = [] ->
    attempts params world self ConfigUpdate self1
| attempts_update self1 self2 :
    attempts params world self RegistryLookup self1 ->
    passes params world RegistryLookup self1 self2 ->
    not_yet_collected self2 = [] ->
    attempts params world self ConfigUpdate self2
| attempts_start self2 self3 :
    attempts params world self ConfigUpdate self2 ->
    passes params world ConfigUpdate self2 self3 ->
    attempts params world self NodeStart self3.

(** The result of step [s] is already held when [async_act] is entered:
    what the guard of the step tests. *)
Definition held (self : Behaviour) (s : Step) : Prop :=
  match s with
  | ConfigFetch => truthy (local_tendermint_params self) = true
  | RegistryLookup => registered_addresses self <> []
  | ConfigUpdate | NodeStart => False
  end.

(** Action [a] is the external call of step [s]. *)
Definition calls (params : Params) (s : Step) (a : Action) : Prop :=
  match s with
  | ConfigFetch => a = HttpRequest "GET" (tendermint_parameter_url params) None
  | RegistryLookup => is_registry_query a = true
  | ConfigUpdate => exists c, a = HttpRequest "POST" (tendermint_parameter_url params) c
  | NodeStart => a = HttpRequest "GET" (tendermint_com_url params +:+ "/start") None
  end.

(** *** A concrete agent *)

Definition agent : Params :=
  {| tendermint_com_url := "http://localhost:8080";
     tendermint_url := "localhost:26656";
     service_registry_address := Some "0xregistry";
     sleep_time := 5;
     agent_address := "0xagent" |}.

Definition fresh : Behaviour :=
  {| local_tendermint_params := JNull; registered_addresses := []; collected := [] |}.

(** The configuration is held, the agent is the only registered address
    and its configuration has been collected. *)
Definition ready : Behaviour :=
  {| local_tendermint_params := JObj [("proxy_app", JStr "tcp://0.0.0.0:26658")];
     registered_addresses := [(JStr "0xagent", JStr "localhost:26656")];
     collected := [("0xagent", "localhost:26656")] |}.

Definition unsuccessful : ContractApiMessage :=
  {| performative := ERROR; state_body := [] |}.

(** Every request fails: bodies that are not JSON, contract calls that
    are answered with an error. *)
Definition unreachable : World :=
  {| params_reply := NotJson;
     verify_contract_reply := unsuccessful;
     get_service_info_reply := unsuccessful;
     update_reply := NotJson;
     start_reply := NotJson |}.

(** The update succeeds, the start of the node does not. *)
Definition start_fails : World :=
  {| params_reply := NotJson;
     verify_contract_reply := unsuccessful;
     get_service_info_reply := unsuccessful;
     update_reply := Parsed (JObj [("status", JNum 200)]);
     start_reply := NotJson |}.

(** The registry knows the agent and one peer; the sidecar answers the
    fetch with its parameters and every other request with status 200. *)
Definition verified : ContractApiMessage :=
  {| performative := GET_STATE; state_body := [("verified", JBool true)] |}.

Definition service_info : ContractApiMessage :=
  {| performative := GET_STATE;
     state_body :=
       [("verified", JObj [("agent_instances", JArr [JStr "0xpeer"; JStr "0xagent"])])] |}.

Definition cooperative : World :=
  {| params_reply := Parsed (JObj [("proxy_app", JStr "tcp://0.0.0.0:26658")]);
     verify_contract_reply := verified;
     get_service_info_reply := service_info;
     update_reply := Parsed (JObj [("status", JNum 200)]);
     start_reply := Parsed (JObj [("status", JNum 200); ("message", JStr "started")]) |}.

(** The sidecar answers the fetch of its parameters with the empty JSON
    object [{}]; every other request fails. *)
Definition empty_configuration : World :=
  {| params_reply := Parsed (JObj []);
     verify_contract_reply := unsuccessful;
     get_service_info_reply := unsuccessful;
     update_reply := NotJson;
     start_reply := NotJson |}.


End Registration.

(** ** Concrete rounds *)

Module Scenario.

Import ResetPause.

Definition payload (a : Address) (n : Z) : Address * BaseTxPayload :=
  (a, {| sender := a; period_count := n |}).

Definition four : Value := VAddrs ["A"; "B"; "C"; "D"].

(** Four participants; one persisted key, one ephemeral key. *)
Definition state : BasePeriodState :=
  {| db_data :=
       <["participants" := four]>
         (<["all_participants" := four]>
            (<["safe_contract_address" := VStr "0xsafe"]>
               (<["tx_hashes_history" := VStr "0xabc"]>
                  (<["keeper" := VStr "A"]> ∅))));
     cross_period_persisted_keys := ["safe_contract_address"];
     initial_data := ∅;
     db_period_count := 0 |}.

Definition round (c : Collection) : Round :=
  {| round_id := "reset_and_pause"; collection := c; period_state := state |}.

(** [{A:1, B:1, C:1, D:2}] *)
Definition agreed : Collection :=
  [payload "A" 1; payload "B" 1; payload "C" 1; payload "D" 2].


(** [{A:1, B:2, C:3}], [D] has not responded. *)
Definition split : Collection :=
  [payload "A" 1; payload "B" 2; payload "C" 3].

(** [{A:1, B:2}] *)
Definition undecided : Collection :=
  [payload "A" 1; payload "B" 2].

(** The same store with other persisted keys. *)
Definition state_persisting (keys : list string) : BasePeriodState :=
  {| db_data := db_data state;
     cross_period_persisted_keys := keys;
     initial_data := initial_data state;
     db_period_count := db_period_count state |}.

Definition round_persisting (keys : list string) : Round :=
  {| round_id := "reset_and_pause"; collection := agreed;
     period_state := state_persisting keys |}.



End Scenario.

(** * Properties *)

(** ** Payload groups and the quorum *)

Section Groups.

Import ResetPause.

Implicit Types (c : Collection) (v w : Z) (e : Address * BaseTxPayload).



Lemma votes_le_length c v : votes c v ≤ length c.
Proof. unfold votes. apply length_filter. Qed.



(** The scan keeps a value of the collection whose group is at least as
    large as every group seen. *)
Lemma foldl_better_spec c l best :
  match foldl (better c) best l with
  | None => best = None ∧ l = []
  | Some v =>
      (best = Some v ∨ v ∈ attribute <$> l) ∧
      (∀ b, best = Some b → votes c b ≤ votes c v) ∧
      (∀ e, e ∈ l → votes c (attribute e) ≤ votes c v)
  end.
Proof.
  revert best. induction l as [|e l IH]; intros best; cbn [foldl].
  - destruct best as [b|]; [|done].
    split_and!; [by left|by intros ? [= ->]|by intros ? ?%elem_of_nil].
  - specialize (IH (better c best e)).
    destruct (foldl (better c) (better c best e) l) as [v|] eqn:Hf.
    + destruct IH as (Hin & Hbest & Hall).
      assert (∃ b', better c best e = Some b' ∧
                    (best = Some b' ∨ b' = attribute e) ∧
                    (∀ b, best = Some b → votes c b ≤ votes c b') ∧
                    votes c (attribute e) ≤ votes c b') as (b' & Hb' & Hor & Hle1 & Hle2).
      { unfold better. destruct best as [b|].
        - destruct (decide _).
          + eexists; split_and!; [done|by right|intros ? [= ->]; lia|done].
          + eexists; split_and!; [done|by left|by intros ? [= ->]|lia].
        - eexists; split_and!; [done|by right|done|done]. }
      specialize (Hbest _ Hb'). split_and!.
      * destruct Hin as [Hin|Hin].
        -- rewrite Hb' in Hin. simplify_eq.
           destruct Hor as [Hor | ->]; [by left|].
           right. rewrite fmap_cons. apply elem_of_cons. by left.
        -- right. rewrite fmap_cons. apply elem_of_cons. by right.
      * intros b Hbb. specialize (Hle1 _ Hbb). lia.
      * intros e2 [->|Hin2]%elem_of_cons; [lia|by apply Hall].
    + destruct IH as [Hb _]. unfold better in Hb.
      destruct best; [destruct (decide _)|]; done.
Qed.

Lemma largest_group_spec c v :
  largest_group c = Some v →
  v ∈ attribute <$> c ∧ ∀ e, e ∈ c → votes c (attribute e) ≤ votes c v.
Proof.
  intros Hl. pose proof (foldl_better_spec c c None) as H.
  unfold largest_group in Hl. rewrite Hl in H.
  destruct H as ([?|?] & _ & ?); [done|done].
Qed.

Lemma largest_group_None c : largest_group c = None → c = [].
Proof.
  intros Hl. pose proof (foldl_better_spec c c None) as H.
  unfold largest_group in Hl. rewrite Hl in H. by destruct H.
Qed.




(** When some group meets the quorum, so does the largest one. *)
Lemma largest_group_quorum nb c :
  quorum_group nb c →
  ∃ v, largest_group c = Some v ∧ meets_quorum nb (votes c v) = true.
Proof.
  intros (e & Hin & Hq)%Exists_exists.
  destruct (largest_group c) as [v|] eqn:Hl.
  - exists v. split; [done|]. apply largest_group_spec in Hl as [_ Hmax].
    specialize (Hmax _ Hin). unfold meets_quorum in *.
    apply bool_decide_eq_true in Hq. apply bool_decide_eq_true. lia.
  - apply largest_group_None in Hl. subst. by apply elem_of_nil in Hin.
Qed.

End Groups.

(** ** The scenarios of the specification *)

Section Scenarios.

Import ResetPause Scenario.

Example four_agree_three_to_one :
  threshold_reached (round agreed) = Ok true ∧
  most_voted_payload (round agreed) = Ok 1%Z ∧
  (∃ st, ResetRound.end_block (round agreed) = Ok (Some (st, DONE))).
Proof. split_and!; [by vm_compute|by vm_compute|eexists; by vm_compute]. Qed.

Example three_distinct_no_majority :
  is_majority_possible split 4 = false ∧
  ResetRound.end_block (round split) = Ok (Some (state, NO_MAJORITY)).
Proof. split; by vm_compute. Qed.

Example two_distinct_still_possible :
  is_majority_possible undecided 4 = true ∧
  ResetRound.end_block (round undecided) = Ok None ∧
  ResetAndPauseRound.end_block (round undecided) = Ok None.
Proof. split_and!; by vm_compute. Qed.

End Scenarios.

(** ** The state store *)

Section Store.

Import ResetPause.

Implicit Types (ps : BasePeriodState) (d kwargs : gmap string Value).

Lemma get_strict_Ok ps key v : get_strict ps key = Ok v ↔ db_data ps !! key = Some v.
Proof. unfold get_strict. destruct (db_data ps !! key); split; congruence. Qed.

(** What the loop over the persisted keys builds, when it completes. *)
Lemma persisted_Ok ps keys acc extra :
  ResetAndPauseRound.persisted ps keys acc = Ok extra →
  (∀ k, k ∈ keys → is_Some (db_data ps !! k)) ∧
  (∀ k, extra !! k = if decide (k ∈ keys) then db_data ps !! k else acc !! k).
Proof.
  revert acc. induction keys as [|key keys IH]; intros acc; cbn [ResetAndPauseRound.persisted].
  - intros [= ->]. split; [by intros k ?%elem_of_nil|].
    intros k. destruct (decide _) as [?%elem_of_nil|]; done.
  - destruct (get_strict ps key) as [v|] eqn:Hg; [|done]. cbn.
    apply get_strict_Ok in Hg. intros [Hset Hextra]%IH. split.
    + intros k [->|?]%elem_of_cons; [by eexists|by apply Hset].
    + intros k. rewrite Hextra.
      destruct (decide (k ∈ keys)) as [Hin|Hnin].
      * rewrite decide_True; [done|by right].
      * destruct (decide (k = key)) as [->|Hne].
        -- rewrite decide_True; [|by left]. by rewrite lookup_insert_eq.
        -- rewrite decide_False; [by rewrite lookup_insert_ne|].
           by intros [?|?]%elem_of_cons.
Qed.

(** The loop completes when every persisted key has been written. *)
Lemma persisted_total ps keys acc :
  (∀ k, k ∈ keys → is_Some (db_data ps !! k)) →
  ∃ extra, ResetAndPauseRound.persisted ps keys acc = Ok extra.
Proof.
  revert acc. induction keys as [|key keys IH]; intros acc Hset;
    cbn [ResetAndPauseRound.persisted]; [by eexists|].
  destruct (Hset key) as [v Hv]; [by left|].
  apply get_strict_Ok in Hv. rewrite Hv. cbn. apply IH.
  intros k ?. apply Hset. by right.
Qed.

Lemma keywords_Ok names explicit d kwargs :
  keywords names explicit d = Ok kwargs ↔
  (∀ k, k ∈ names ++ explicit.*1 → d !! k = None) ∧ kwargs = list_to_map explicit ∪ d.
Proof.
  unfold keywords. case_bool_decide as Hex.
  - split; [done|]. intros [Hfree _]. exfalso.
    apply Exists_exists in Hex as (k & Hin & [v Hv]).
    specialize (Hfree k Hin). congruence.
  - split.
    + intros [= <-]. split; [|done]. intros k Hin.
      destruct (d !! k) eqn:Hk; [|done]. exfalso. apply Hex.
      apply Exists_exists. exists k. split; [done|]. by rewrite Hk.
    + by intros [_ ->].
Qed.

Lemma nb_participants_populated ps l :
  participants ps = Ok (VAddrs l) → nb_participants ps = Ok (length l).
Proof. unfold nb_participants. by intros ->. Qed.

End Store.

(** ** Ending the block *)

Section EndBlock.

Import ResetPause.

Implicit Types (self : Round) (ps st : BasePeriodState).

Lemma threshold_reached_eq self nb :
  nb_participants (period_state self) = Ok nb →
  threshold_reached self = Ok (bool_decide (quorum_group nb (collection self))).
Proof. unfold threshold_reached. by intros ->. Qed.

Lemma threshold_reached_true self :
  threshold_reached self = Ok true →
  ∃ nb, nb_participants (period_state self) = Ok nb ∧ quorum_group nb (collection self).
Proof.
  unfold threshold_reached.
  destruct (nb_participants (period_state self)) as [nb|]; [|done]. cbn.
  intros [= Hq%bool_decide_eq_true]. eauto.
Qed.

Lemma most_voted_payload_reached self :
  threshold_reached self = Ok true →
  ∃ v, most_voted_payload self = Ok v.
Proof.
  intros (nb & Hnb & Hq)%threshold_reached_true.
  destruct (largest_group_quorum _ _ Hq) as (v & Hl & Hv).
  exists v. unfold most_voted_payload. rewrite Hnb. cbn. by rewrite Hl, Hv.
Qed.

(** The two tests that follow a threshold that is not reached. *)
Lemma end_block_not_reached self nb :
  threshold_reached self = Ok false →
  nb_participants (period_state self) = Ok nb →
  let decision :=
    if is_majority_possible (collection self) nb then None
    else Some (period_state self, NO_MAJORITY) in
  ResetRound.end_block self = Ok decision ∧
  ResetAndPauseRound.end_block self = Ok decision.
Proof.
  intros Hthr Hnb. unfold ResetRound.end_block, ResetAndPauseRound.end_block.
  rewrite Hthr. cbn. rewrite Hnb. cbn.
  by destruct (is_majority_possible _ _).
Qed.

(** ResetRound at the threshold. *)
Lemma reset_round_done self v :
  threshold_reached self = Ok true →
  most_voted_payload self = Ok v →
  db_data (period_state self) !! "period_count" = None →
  ResetRound.end_block self =
    Ok (Some (update (period_state self) v
                     (<["tx_hashes_history" := VNone]> (db_data (period_state self))), DONE)).
Proof.
  intros Hthr Hv Hpc. unfold ResetRound.end_block. rewrite Hthr. cbn. rewrite Hv. cbn.
  unfold get_all.
  assert (keywords ["period_count"] []
            (<["tx_hashes_history" := VNone]> (db_data (period_state self))) =
          Ok (<["tx_hashes_history" := VNone]> (db_data (period_state self)))) as ->.
  { apply keywords_Ok. split.
    - intros k [->|[]%elem_of_nil]%elem_of_cons. by rewrite lookup_insert_ne.
    - cbn. by rewrite (left_id_L ∅ (∪)). }
  done.
Qed.

(** ResetAndPauseRound at the threshold: what a returned state is. *)
Lemma reset_and_pause_done_inv self st ev :
  threshold_reached self = Ok true →
  ResetAndPauseRound.end_block self = Ok (Some (st, ev)) →
  ∃ extra v p everyone,
    ResetAndPauseRound.persisted (period_state self)
      (cross_period_persisted_keys (period_state self)) ∅ = Ok extra ∧
    most_voted_payload self = Ok v ∧
    participants (period_state self) = Ok p ∧
    all_participants (period_state self) = Ok everyone ∧
    (∀ k, k ∈ reserved → extra !! k = None) ∧
    ev = DONE ∧
    st = update (period_state self) v
           (<["participants" := p]> (<["all_participants" := everyone]> extra)).
Proof.
  intros Hthr. unfold ResetAndPauseRound.end_block. rewrite Hthr. cbn.
  destruct (ResetAndPauseRound.persisted _ _ _) as [extra|]; [|done]. cbn.
  destruct (most_voted_payload self) as [v|]; [|done]. cbn.
  destruct (participants _) as [p|]; [|done]. cbn.
  destruct (all_participants _) as [everyone|]; [|done]. cbn.
  destruct (keywords _ _ _) as [kwargs|] eqn:Hk; [|done]. cbn.
  apply keywords_Ok in Hk as [Hfree ->]. intros [= <- <-].
  exists extra, v, p, everyone. split_and!; try done.
  cbn. by rewrite <-!insert_union_l, (left_id_L ∅ (∪)).
Qed.

End EndBlock.

Section EndBlockClaims.

Import ResetPause.

Implicit Types (self : Round) (ps st : BasePeriodState).

Lemma reset_and_pause_done self :
  threshold_reached self = Ok true →
  populated (period_state self) →
  ∃ st, ResetAndPauseRound.end_block self = Ok (Some (st, DONE)).
Proof.
  intros Hthr ([l Hp] & [l' Ha] & Hkeys & _).
  destruct (persisted_total (period_state self)
              (cross_period_persisted_keys (period_state self)) ∅) as [extra Hextra].
  { intros k Hk. by apply Hkeys. }
  destruct (most_voted_payload_reached _ Hthr) as [v Hv].
  pose proof (persisted_Ok _ _ _ _ Hextra) as [_ Hlook].
  unfold ResetAndPauseRound.end_block.
  rewrite Hthr. cbn. rewrite Hextra. cbn. rewrite Hv. cbn. rewrite Hp, Ha. cbn.
  assert (∃ kwargs, keywords ["period_count"]
            [("participants", VAddrs l); ("all_participants", VAddrs l')] extra
          = Ok kwargs) as [kwargs ->]; [|cbn; by eexists].
  eexists. apply keywords_Ok. split; [|done].
  intros k Hk. rewrite Hlook. destruct (decide _) as [Hin|]; [|done].
  destruct (Hkeys k Hin) as [_ []]. done.
Qed.

(** C2.  In a populated round state, [end_block] of [ResetRound] and of
    [ResetAndPauseRound] decides in this order: when the threshold is
    reached it returns [Event.DONE] with an updated period state whose
    period count is the most voted payload (and in which, for
    [ResetAndPauseRound], every cross-period-persisted key has its former
    value); otherwise, when a majority is no longer possible, it returns
    the unchanged period state with [Event.NO_MAJORITY]; otherwise it
    returns [None]. *)
Theorem end_block_decision_order self nb :
  populated (period_state self) →
  nb_participants (period_state self) = Ok nb →
  (threshold_reached self = Ok true →
     ∃ v st st',
       most_voted_payload self = Ok v ∧
       ResetRound.end_block self = Ok (Some (st, DONE)) ∧
       db_period_count st = v ∧
       ResetAndPauseRound.end_block self = Ok (Some (st', DONE)) ∧
       db_period_count st' = v ∧
       ∀ k, k ∈ cross_period_persisted_keys (period_state self) →
            is_Some (db_data st' !! k) ∧
            db_data st' !! k = db_data (period_state self) !! k) ∧
  (threshold_reached self = Ok false →
   is_majority_possible (collection self) nb = false →
     ResetRound.end_block self = Ok (Some (period_state self, NO_MAJORITY)) ∧
     ResetAndPauseRound.end_block self = Ok (Some (period_state self, NO_MAJORITY))) ∧
  (threshold_reached self = Ok false →
   is_majority_possible (collection self) nb = true →
     ResetRound.end_block self = Ok None ∧
     ResetAndPauseRound.end_block self = Ok None).
Proof.
  intros Hpop Hnb. split_and!.
  - intros Hthr.
    destruct (most_voted_payload_reached _ Hthr) as [v Hv].
    destruct (reset_and_pause_done _ Hthr Hpop) as [st' Hst'].
    destruct (reset_and_pause_done_inv _ _ _ Hthr Hst')
      as (extra & v' & p & everyone & Hextra & Hv' & _ & _ & Hfree & _ & ->).
    assert (v' = v) as -> by congruence.
    exists v, (update (period_state self) v
      (<["tx_hashes_history" := VNone]> (db_data (period_state self)))).
    exists (update (period_state self) v
      (<["participants" := p]> (<["all_participants" := everyone]> extra))).
    split_and!; [done| |done|done|done|].
    + apply reset_round_done; [done|done|]. apply Hpop.
    + intros k Hk. destruct Hpop as (_ & _ & Hkeys & _).
      destruct (Hkeys k Hk) as [Hsome Hres].
      apply persisted_Ok in Hextra as [_ Hlook].
      assert (db_data (update (period_state self) v
                (<["participants" := p]> (<["all_participants" := everyone]> extra))) !! k
              = db_data (period_state self) !! k) as Heq; [|by rewrite Heq].
      cbn. destruct Hsome as [val Hval].
      rewrite Hval. apply lookup_union_Some_l.
      rewrite !lookup_insert_ne.
      * rewrite Hlook, decide_True; done.
      * intros <-. apply Hres. by apply (bool_decide_unpack _).
      * intros <-. apply Hres. by apply (bool_decide_unpack _).
  - intros Hthr Hposs.
    pose proof (end_block_not_reached _ _ Hthr Hnb) as H. by rewrite Hposs in H.
  - intros Hthr Hposs.
    pose proof (end_block_not_reached _ _ Hthr Hnb) as H. by rewrite Hposs in H.
Qed.

Lemma scenario_populated : populated Scenario.state.
Proof.
  split_and!; [by eexists|by eexists| |done].
  intros k [->|[]%elem_of_nil]%elem_of_cons. split; [by eexists|].
  by apply (bool_decide_unpack _).
Qed.

Lemma end_block_decision_order_witness :
  (∃ v st st',
      most_voted_payload (Scenario.round Scenario.agreed) = Ok v ∧
      ResetRound.end_block (Scenario.round Scenario.agreed) = Ok (Some (st, DONE)) ∧
      db_period_count st = v ∧
      ResetAndPauseRound.end_block (Scenario.round Scenario.agreed) = Ok (Some (st', DONE)) ∧
      db_period_count st' = v ∧
      ∀ k, k ∈ cross_period_persisted_keys Scenario.state →
           is_Some (db_data st' !! k) ∧ db_data st' !! k = db_data Scenario.state !! k).
Proof.
  refine (proj1 (end_block_decision_order (Scenario.round Scenario.agreed) 4
                   scenario_populated _) _); by vm_compute.
Defined.







(** C6, amended.  When [ResetAndPauseRound.end_block] reaches the
    threshold and returns [Event.DONE], every cross-period-persisted key
    appears in the next period state with the value it had before; so do
    [participants] and [all_participants], which the round hands over
    explicitly whether they are listed or not; the period count is the
    most voted payload; every other key reverts to the declared
    default. *)
Theorem reset_and_pause_carries_persisted_keys self st :
  ResetAndPauseRound.end_block self = Ok (Some (st, DONE)) →
  (∀ k, k ∈ cross_period_persisted_keys (period_state self) ++
            ["participants"; "all_participants"] →
        is_Some (db_data st !! k) ∧
        db_data st !! k = db_data (period_state self) !! k) ∧
  most_voted_payload self = Ok (db_period_count st) ∧
  (∀ k, k ∉ cross_period_persisted_keys (period_state self) ++
            ["participants"; "all_participants"] →
        db_data st !! k = initial_data (period_state self) !! k).
Proof.
  intros Hdone.
  assert (threshold_reached self = Ok true) as Hthr.
  { unfold ResetAndPauseRound.end_block in Hdone.
    destruct (threshold_reached self) as [[]|]; [done| |done]. cbn in Hdone.
    destruct (nb_participants _); [|done]. cbn in Hdone.
    by destruct (negb _). }
  destruct (reset_and_pause_done_inv _ _ _ Hthr Hdone)
    as (extra & v & p & everyone & Hextra & Hv & Hp & Ha & Hfree & _ & ->).
  apply persisted_Ok in Hextra as [Hset Hlook].
  apply get_strict_Ok in Hp, Ha. cbn. split_and!; [|done|].
  - intros k Hk.
    assert (∃ val, db_data (period_state self) !! k = Some val ∧
                   (<["participants" := p]> (<["all_participants" := everyone]> extra)) !! k
                   = Some val) as (val & Hval & Hnew).
    { destruct (decide (k = "participants")) as [->|Hn1].
      { exists p. by rewrite lookup_insert_eq. }
      destruct (decide (k = "all_participants")) as [->|Hn2].
      { exists everyone. by rewrite lookup_insert_ne, lookup_insert_eq. }
      apply elem_of_app in Hk as [Hk|Hk].
      - destruct (Hset k Hk) as [val Hval]. exists val.
        rewrite !lookup_insert_ne by done. by rewrite Hlook, decide_True.
      - apply elem_of_cons in Hk as [->|Hk]; [done|].
        apply elem_of_cons in Hk as [->|Hk]; [done|]. by apply elem_of_nil in Hk. }
    rewrite Hval, (lookup_union_Some_l _ _ _ _ Hnew). eauto.
  - intros k Hk.
    apply not_elem_of_app in Hk as [Hk1 Hk2].
    apply not_elem_of_cons in Hk2 as [Hn1 Hk2].
    apply not_elem_of_cons in Hk2 as [Hn2 _].
    apply lookup_union_r. rewrite !lookup_insert_ne by done.
    by rewrite Hlook, decide_False.
Qed.

Lemma reset_and_pause_carries_persisted_keys_witness :
  ∃ st, ResetAndPauseRound.end_block (Scenario.round Scenario.agreed) = Ok (Some (st, DONE)) ∧
        db_data st !! "safe_contract_address" = Some (VStr "0xsafe") ∧
        db_data st !! "keeper" = None.
Proof.
  destruct (reset_and_pause_done (Scenario.round Scenario.agreed)) as [st Hst];
    [by vm_compute|exact scenario_populated|].
  exists st. split; [done|].
  destruct (reset_and_pause_carries_persisted_keys _ _ Hst) as (Hkeep & _ & Hdrop).
  split.
  - destruct (Hkeep "safe_contract_address") as [_ ->]; [|done].
    by apply (bool_decide_unpack _).
  - rewrite Hdrop; [done|]. by apply (bool_decide_unpack _).
Defined.

(** C6 as stated fails: [participants] is not a persisted key of the
    scenario's store and has no declared default, yet the period state
    returned with [Event.DONE] carries it forward. *)
Lemma unlisted_participants_carried_forward :
  ¬ (∀ st k,
       ResetAndPauseRound.end_block (Scenario.round Scenario.agreed) = Ok (Some (st, DONE)) →
       k ∉ cross_period_persisted_keys Scenario.state →
       db_data st !! k = initial_data Scenario.state !! k).
Proof.
  intros Hclaim.
  assert (∃ st, ResetAndPauseRound.end_block (Scenario.round Scenario.agreed)
                = Ok (Some (st, DONE)) ∧
                db_data st !! "participants" = Some Scenario.four) as (st & Hst & Hp).
  { eexists. split; vm_compute; reflexivity. }
  specialize (Hclaim st "participants" Hst).
  rewrite Hp in Hclaim. discriminate Hclaim. by apply (bool_decide_unpack _).
Qed.

(** C9.  When [ResetRound.end_block] reaches the threshold, the period
    state it returns with [Event.DONE] holds every key of the store with
    its former value, except that [tx_hashes_history] is [None], and its
    period count is the most voted payload; a decision
    [Event.NO_MAJORITY] carries the very period state of the round. *)
Theorem reset_round_keeps_store self :
  threshold_reached self = Ok true →
  db_data (period_state self) !! "period_count" = None →
  (∃ st v,
      ResetRound.end_block self = Ok (Some (st, DONE)) ∧
      most_voted_payload self = Ok v ∧
      db_period_count st = v ∧
      db_data st !! "tx_hashes_history" = Some VNone ∧
      ∀ k val, k ≠ "tx_hashes_history" →
               db_data (period_state self) !! k = Some val →
               db_data st !! k = Some val) ∧
  (∀ self' st', ResetRound.end_block self' = Ok (Some (st', NO_MAJORITY)) →
                st' = period_state self').
Proof.
  intros Hthr Hpc. split.
  - destruct (most_voted_payload_reached _ Hthr) as [v Hv].
    eexists _, v. split_and!; [by apply reset_round_done|done|done|..].
    + cbn. apply lookup_union_Some_l. by rewrite lookup_insert_eq.
    + intros k val Hne Hval. cbn. apply lookup_union_Some_l.
      by rewrite lookup_insert_ne.
  - intros self' st'. unfold ResetRound.end_block.
    destruct (threshold_reached self') as [[]|]; [| |done]; cbn.
    + destruct (most_voted_payload self'); [|done]. cbn.
      destruct (keywords _ _ _); [|done]. cbn. congruence.
    + destruct (nb_participants _); [|done]. cbn.
      destruct (negb _); congruence.
Qed.

Lemma reset_round_keeps_store_witness :
  ∃ st, ResetRound.end_block (Scenario.round Scenario.agreed) = Ok (Some (st, DONE)) ∧
        db_period_count st = 1%Z ∧
        db_data st !! "tx_hashes_history" = Some VNone ∧
        db_data st !! "keeper" = Some (VStr "A").
Proof.
  destruct (reset_round_keeps_store (Scenario.round Scenario.agreed))
    as [(st & v & Hst & Hv & Hcount & Htx & Hframe) _]; [by vm_compute|by vm_compute|].
  exists st. split_and!; [done| |done|by apply Hframe].
  vm_compute in Hv. congruence.
Defined.

End EndBlockClaims.

(** ** Checking and processing payloads *)

Section Payloads.

Import ResetPause ResetAndPauseRound.

Implicit Types (self : Round) (payload : BaseTxPayload).

Lemma dict_contains_spec {V} key (d : list (string * V)) :
  dict_contains key d = true ↔ key ∈ d.*1.
Proof. unfold dict_contains. apply bool_decide_eq_true. Qed.

(** Assigning to a key the dictionary does not hold appends the entry. *)
Lemma dict_set_fresh {V} key (v : V) (d : list (string * V)) :
  key ∉ d.*1 → dict_set key v d = d ++ [(key, v)].
Proof.
  induction d as [|[k w] d IH]; [done|]. cbn.
  intros [Hne Hnin]%not_elem_of_cons.
  rewrite decide_False by done. by rewrite IH.
Qed.

Lemma check_payload_eq self payload everyone :
  all_participants (period_state self) = Ok (VAddrs everyone) →
  check_payload payload self =
    (if decide (sender payload ∈ everyone) then
       if decide (sender payload ∈ (collection self).*1)
       then Raise (TransactionNotValidError (AlreadySent (sender payload) (round_id self)))
       else Ok tt
     else Raise (TransactionNotValidError (NotInParticipants (sender payload))),
     self).
Proof.
  intros Hall. unfold check_payload, bind, get_period_state, lift, get_collection,
    get_round_id, raise, ret. rewrite Hall. cbn.
  destruct (decide (sender payload ∈ everyone)) as [Hin|Hnin].
  - rewrite bool_decide_eq_true_2 by done. cbn. unfold dict_contains.
    destruct (decide (sender payload ∈ (collection self).*1)).
    + by rewrite bool_decide_eq_true_2.
    + by rewrite bool_decide_eq_false_2.
  - by rewrite bool_decide_eq_false_2.
Qed.

Lemma process_payload_eq self payload everyone :
  all_participants (period_state self) = Ok (VAddrs everyone) →
  process_payload payload self =
    if decide (sender payload ∈ everyone) then
      if decide (sender payload ∈ (collection self).*1)
      then (Raise (ABCIAppInternalError (Some (AlreadySent (sender payload) (round_id self)))),
            self)
      else (Ok tt, with_collection self (collection self ++ [(sender payload, payload)]))
    else (Raise (ABCIAppInternalError (Some (NotInParticipants (sender payload)))), self).
Proof.
  intros Hall. unfold process_payload, bind, get_period_state, lift, get_collection,
    get_round_id, raise, set_collection. rewrite Hall. cbn.
  destruct (decide (sender payload ∈ everyone)) as [Hin|Hnin].
  - rewrite bool_decide_eq_true_2 by done. cbn. unfold dict_contains.
    destruct (decide (sender payload ∈ (collection self).*1)).
    + by rewrite bool_decide_eq_true_2.
    + rewrite bool_decide_eq_false_2 by done. by rewrite dict_set_fresh.
  - by rewrite bool_decide_eq_false_2.
Qed.

(** [check_payload] has no assignment: the round it leaves is the round
    it found, whatever the payload and whatever the outcome. *)
Lemma check_payload_pure self payload : (check_payload payload self).2 = self.
Proof.
  unfold check_payload, bind, get_period_state, lift, get_collection,
    get_round_id, raise, ret.
  destruct (all_participants _) as [everyone|]; [|done].
  destruct (py_in _ _) as [[]|]; [|done|done]. cbn.
  by destruct (dict_contains _ _).
Qed.

(** C3.  With [all_participants] populated, [check_payload] raises
    [TransactionNotValidError] exactly when the sender is not in
    [all_participants] or already has a payload in the collection;
    [process_payload] raises [ABCIAppInternalError] under exactly the
    same two conditions and otherwise records [collection[sender] =
    payload]. *)
Theorem payload_guards self payload everyone :
  all_participants (period_state self) = Ok (VAddrs everyone) →
  let refused := sender payload ∉ everyone ∨ sender payload ∈ (collection self).*1 in
  ((∃ why, (check_payload payload self).1 = Raise (TransactionNotValidError why)) ↔ refused) ∧
  ((∃ why, (process_payload payload self).1 = Raise (ABCIAppInternalError why)) ↔ refused) ∧
  (¬ refused →
     check_payload payload self = (Ok tt, self) ∧
     process_payload payload self =
       (Ok tt, with_collection self (collection self ++ [(sender payload, payload)]))).
Proof.
  intros Hall refused. subst refused.
  rewrite (check_payload_eq _ _ _ Hall), (process_payload_eq _ _ _ Hall).
  destruct (decide (sender payload ∈ everyone)) as [Hin|Hnin];
    [destruct (decide (sender payload ∈ (collection self).*1)) as [Hdup|Hnew]|]; cbn.
  - split_and!; [split; [by right|by eexists]..|]. intros []. by right.
  - split_and!; [split; [by intros [? ?]|by intros [?|?]]..|done].
  - split_and!; [split; [by left|by eexists]..|]. intros []. by left.
Qed.

Lemma payload_guards_witness :
  process_payload (Scenario.payload "C" 3).2 (Scenario.round Scenario.undecided) =
    (Ok tt, Scenario.round Scenario.split) ∧
  (∃ why, (check_payload (Scenario.payload "B" 7).2 (Scenario.round Scenario.undecided)).1
          = Raise (TransactionNotValidError why)) ∧
  (∃ why, (process_payload (Scenario.payload "E" 1).2 (Scenario.round Scenario.undecided)).1
          = Raise (ABCIAppInternalError why)).
Proof.
  split_and!.
  - apply (payload_guards (Scenario.round Scenario.undecided) (Scenario.payload "C" 3).2
             ["A"; "B"; "C"; "D"] eq_refl).
    by apply (bool_decide_unpack _).
  - apply (payload_guards (Scenario.round Scenario.undecided) (Scenario.payload "B" 7).2
             ["A"; "B"; "C"; "D"] eq_refl).
    right. by apply (bool_decide_unpack _).
  - apply (payload_guards (Scenario.round Scenario.undecided) (Scenario.payload "E" 1).2
             ["A"; "B"; "C"; "D"] eq_refl).
    left. by apply (bool_decide_unpack _).
Defined.

(** C5.  A second payload from a sender that already has an entry in the
    collection makes [check_payload] raise [TransactionNotValidError] and
    [process_payload] raise [ABCIAppInternalError], and both leave the
    round, its collection included, exactly as it was; [check_payload]
    changes nothing on any input. *)
Theorem double_submission_rejected self payload everyone :
  all_participants (period_state self) = Ok (VAddrs everyone) →
  sender payload ∈ (collection self).*1 →
  (∃ why, check_payload payload self = (Raise (TransactionNotValidError why), self)) ∧
  (∃ why, process_payload payload self = (Raise (ABCIAppInternalError why), self)) ∧
  (∀ self' payload', (check_payload payload' self').2 = self').
Proof.
  intros Hall Hdup.
  rewrite (check_payload_eq _ _ _ Hall), (process_payload_eq _ _ _ Hall).
  split_and!; [..|apply check_payload_pure].
  - destruct (decide (sender payload ∈ everyone)); [rewrite decide_True by done|];
      by eexists.
  - destruct (decide (sender payload ∈ everyone)); [rewrite decide_True by done|];
      by eexists.
Qed.

Lemma double_submission_rejected_witness :
  (∃ why, check_payload (Scenario.payload "A" 2).2 (Scenario.round Scenario.undecided)
          = (Raise (TransactionNotValidError why), Scenario.round Scenario.undecided)) ∧
  (∃ why, process_payload (Scenario.payload "A" 2).2 (Scenario.round Scenario.undecided)
          = (Raise (ABCIAppInternalError why), Scenario.round Scenario.undecided)).
Proof.
  destruct (double_submission_rejected (Scenario.round Scenario.undecided)
              (Scenario.payload "A" 2).2 ["A"; "B"; "C"; "D"] eq_refl) as (Hc & Hp & _).
  - by apply (bool_decide_unpack _).
  - by split.
Defined.

End Payloads.

(** ** The ABCI handler *)

Section Handler.

Import AbstractAbci.

Implicit Types (message : AbciMessage) (dialogue : AbciDialogue) (ctx : Context).

Lemma is_request_not_response p :
  is_request p = true → PyStr.contains "response_" (value p) = false.
Proof. destruct p; vm_compute; congruence. Qed.

Lemma has_method_None p :
  has_method p = false → getattr (PyStr.replace "request_" "" (value p)) = None.
Proof. unfold has_method. by destruct (getattr _). Qed.

(** C10.  Whatever the request and the dialogue, the responses of
    [check_tx] and [deliver_tx] carry code 0 (OK) and empty data. *)
Theorem check_tx_deliver_tx_accept message dialogue :
  response_code (body (check_tx message dialogue)) = Some 0%Z ∧
  response_data (body (check_tx message dialogue)) = Some [] ∧
  performative (check_tx message dialogue) = RESPONSE_CHECK_TX ∧
  response_code (body (deliver_tx message dialogue)) = Some 0%Z ∧
  response_data (body (deliver_tx message dialogue)) = Some [] ∧
  performative (deliver_tx message dialogue) = RESPONSE_DELIVER_TX.
Proof. by split_and!. Qed.

(** C1, amended.  For a request whose kind the handler has no method
    for, [handle], given a valid dialogue, logs the warning that it
    cannot handle the request and puts no message in the outbox; the
    exception response with its error string is what [handle] sends when
    the dialogue is invalid. *)
Theorem handle_ignores_unknown_request message dialogue ctx :
  is_request (performative message) = true →
  has_method (performative message) = false →
  outbox (handle (Some dialogue) message ctx) = outbox ctx ∧
  (∃ request_type,
      logger (handle (Some dialogue) message ctx) =
      logger ctx ++ [LogInfo ("Received ABCI request of type " +:+ request_type);
                     LogWarning ("cannot handle request '" +:+ request_type
                                 +:+ "', ignoring...")]) ∧
  outbox (handle None message ctx) =
    outbox ctx ++ [create ctx (sender message) RESPONSE_EXCEPTION
                          (Exception "Invalid dialogue.")].
Proof.
  intros Hreq%is_request_not_response Hnone%has_method_None.
  unfold handle. rewrite Hreq, Hnone. split_and!; [done| |done].
  eexists. cbn. by rewrite <-app_assoc.
Qed.

Lemma handle_ignores_unknown_request_witness :
  outbox (handle (Some echo_dialogue) echo_request empty_context) = [].
Proof.
  apply (handle_ignores_unknown_request echo_request echo_dialogue empty_context);
    reflexivity.
Defined.

(** C1 as stated fails: a [request_echo] received in a valid dialogue is
    a request without a handler method, and no exception response (no
    message at all) is put in the outbox. *)
Lemma echo_request_gets_no_reply :
  is_request (performative echo_request) = true ∧
  has_method (performative echo_request) = false ∧
  ¬ Exists (λ m, is_exception_reply m = true)
           (outbox (handle (Some echo_dialogue) echo_request empty_context)).
Proof. split_and!; [done|done|]. vm_compute. by intros ?%Exists_nil. Qed.

End Handler.

(** ** The startup behaviour *)

Section Startup.

Import Registration.

Variable params : Params.
Variable world : World.

Implicit Types (self : Behaviour) (s : Step) (t : list Action).

Lemma bind_run {A B} (m : Gen A) (k : A → Gen B) self :
  bind m k self =
    match outcome (m self) with
    | Ok a => behind (trace (m self)) (k a (final (m self)))
    | Raise e => (Raise e, final (m self), trace (m self))
    end.
Proof.
  unfold bind, behind, outcome, final, trace.
  destruct (m self) as [[[a|e] self'] t]; cbn; [|done].
  by destruct (k a self') as [[r self''] t'].
Qed.

Lemma bind_read {A B} (f : Behaviour → A) (k : A → Gen B) self :
  bind (read f) k self = k (f self) self.
Proof. rewrite bind_run. cbn. unfold behind. by destruct (k (f self) self) as [[? ?] ?]. Qed.

Lemma bind_ret {A B} (a : A) (k : A → Gen B) self : bind (ret a) k self = k a self.
Proof. rewrite bind_run. cbn. unfold behind. by destruct (k a self) as [[? ?] ?]. Qed.

Lemma behind_behind {A} t t' (run : result A * Behaviour * list Action) :
  behind t (behind t' run) = behind (t ++ t') run.
Proof. unfold behind. cbn. by rewrite app_assoc. Qed.

Lemma async_act_from_fetch self :
  async_act params world self =
    from_fetch params world
      (if negb (truthy (local_tendermint_params self))
       then get_tendermint_configuration params world else ret true) self.
Proof. unfold async_act. by rewrite bind_read. Qed.

Lemma from_registry_run self :
  from_registry params world self =
    if is_empty (registered_addresses self)
    then resume params world RegistryLookup self
    else from_collect params world self.
Proof.
  unfold from_registry. rewrite bind_read.
  destruct (is_empty _); [done|]. by rewrite bind_ret.
Qed.

(** *** Traces *)

Lemma Forall_trace_bind {A B} (P : Action → Prop) (m : Gen A) (k : A → Gen B) self :
  Forall P (trace (m self)) →
  (∀ a self', Forall P (trace (k a self'))) →
  Forall P (trace (bind m k self)).
Proof.
  intros Hm Hk. rewrite bind_run. destruct (outcome (m self)); [|done].
  cbn. apply Forall_app. split; [done|apply Hk].
Qed.

Lemma Forall_trace_for_each (P : Action → Prop) (f : Json → Gen unit) xs self :
  (∀ x self', Forall P (trace (f x self'))) →
  Forall P (trace (for_each f xs self)).
Proof.
  intros Hf. revert self. induction xs as [|x xs IH]; intros self; cbn; [done|].
  apply Forall_trace_bind; [apply Hf|]. intros _ self'. apply IH.
Qed.

(** Discharges [Forall P (trace (m self))] for a generator built from
    the primitives, given a proof of [P] for each emitted action. *)
Ltac traced tac :=
  repeat first
    [ apply Forall_nil_2
    | apply Forall_trace_bind; [|intros ? ?]
    | apply Forall_trace_for_each; intros ? ?
    | apply Forall_cons; split; [tac|]
    | progress cbn [trace snd ret raise lift read emit sleep make_tendermint_request
                    set_local_tendermint_params set_registered_addresses]
    | match goal with
      | |- Forall _ (trace ((if ?b then _ else _) _)) => destruct b
      | |- Forall _ (trace ((match ?x with _ => _ end) _)) => destruct x
      end ].

Section Safe.

Variable P : Action → Prop.
Hypothesis P_tendermint : ∀ a, P (TendermintRequest a).
Hypothesis P_update : ∀ c, P (HttpRequest "POST" (tendermint_parameter_url params) c).
Hypothesis P_start : P (HttpRequest "GET" (tendermint_com_url params +:+ "/start") None).
Hypothesis P_sleep : ∀ z, P (Sleep z).
Hypothesis P_tail :
  P (SendA2ATransaction (agent_address params)) ∧ P WaitUntilRoundEnd ∧ P SetDone.

(** Once the two guarded steps are behind, every action is a request to
    a peer, the update, the start, a sleep or the registration
    itself. *)
Lemma Forall_trace_from_collect self :
  Forall P (trace (from_collect params world self)).
Proof using All.
  destruct P_tail as (? & ? & ?).
  unfold from_collect, from_update, from_start, update_tendermint_configuration,
    start_tendermint, base_async_act.
  traced ltac:(first [apply P_tendermint|apply P_update|apply P_start|apply P_sleep
                     |assumption]).
Qed.

Hypothesis P_registry : ∀ c, P (ContractCall c).

Lemma Forall_trace_from_registry self :
  Forall P (trace (from_registry params world self)).
Proof using All.
  rewrite from_registry_run. destruct (is_empty _);
    [|apply Forall_trace_from_collect]. cbn [resume].
  apply Forall_trace_bind.
  - unfold get_addresses, is_correct_contract, get_service_info.
    traced ltac:(apply P_registry).
  - intros [] ?; cbn [negb]; [apply Forall_trace_from_collect|].
    traced ltac:(apply P_sleep).
Qed.

End Safe.

Lemma append_inv_head (s a b : string) : s +:+ a = s +:+ b → a = b.
Proof. induction s as [|c s IH]; cbn; [done|]. intros [= ?]. by apply IH. Qed.

Lemma start_url_differs :
  tendermint_com_url params +:+ "/start" ≠ tendermint_parameter_url params.
Proof. unfold tendermint_parameter_url. by intros ?%append_inv_head. Qed.

Lemma fetch_trace self :
  trace (get_tendermint_configuration params world self) =
    [HttpRequest "GET" (tendermint_parameter_url params) None].
Proof. unfold get_tendermint_configuration. by destruct (params_reply world). Qed.

Lemma fetch_keeps_registered self :
  registered_addresses (final (get_tendermint_configuration params world self)) =
    registered_addresses self.
Proof. unfold get_tendermint_configuration. by destruct (params_reply world). Qed.

Lemma is_empty_false {A} (l : list A) : l ≠ [] → is_empty l = false.
Proof. by destruct l. Qed.

(** C7, amended.  When [async_act] is entered with the result of a
    startup step held as its guards test it ([local_tendermint_params] a
    value that [not] finds true, or [registered_addresses] non-empty), the
    run skips the step: its trace holds no fetch of the Tendermint
    configuration, resp. no query of the registry. *)
Theorem async_act_skips_held_step self s :
  held self s →
  Forall (λ a, ¬ calls params s a) (trace (async_act params world self)).
Proof.
  destruct s; cbn [held calls]; [| |done..].
  - intros Hheld. rewrite async_act_from_fetch, Hheld. cbn [negb].
    unfold from_fetch. rewrite bind_ret. cbn [negb].
    apply Forall_trace_from_registry; try done.
    intros [= Hurl]. by apply start_url_differs.
  - intros Hheld.
    assert (∀ self', registered_addresses self' ≠ [] →
              Forall (λ a, is_registry_query a ≠ true)
                     (trace (from_registry params world self'))) as Hrest.
    { intros self' Hne. rewrite from_registry_run, is_empty_false by done.
      by apply Forall_trace_from_collect. }
    rewrite async_act_from_fetch. unfold from_fetch.
    destruct (truthy (local_tendermint_params self)); cbn [negb].
    + rewrite bind_ret. cbn [negb]. by apply Hrest.
    + rewrite bind_run.
      destruct (outcome (get_tendermint_configuration params world self))
        as [successful|] eqn:Hout; rewrite ?fetch_trace; [|by repeat constructor].
      cbn [behind trace snd]. apply Forall_app. split; [by repeat constructor|].
      destruct successful; cbn [negb]; [|by repeat constructor].
      apply Hrest. by rewrite fetch_keeps_registered.
Qed.

End Startup.

Lemma async_act_skips_held_step_witness :
  Forall (λ a, ¬ Registration.calls Registration.agent Registration.ConfigFetch a)
         (Registration.trace
            (Registration.async_act Registration.agent Registration.unreachable
                                    Registration.ready)).
Proof.
  apply (async_act_skips_held_step Registration.agent Registration.unreachable
           Registration.ready Registration.ConfigFetch).
  reflexivity.
Defined.

(** C7 as stated fails: a fetch of the configuration that the sidecar
    answers with [{}] completes, returns [True] and sets
    [local_tendermint_params] to the empty dictionary, which is not [None]
    but which [not] finds false; the run of [async_act] that made the
    fetch ends without an exception, and the next run, entered in the
    state the first one left, fetches the configuration again. *)
Lemma empty_configuration_fetched_again :
  let first := Registration.async_act Registration.agent Registration.empty_configuration
                 Registration.fresh in
  let again := Registration.async_act Registration.agent Registration.empty_configuration
                 (Registration.final first) in
  let fetch := Registration.HttpRequest "GET"
                 (Registration.tendermint_parameter_url Registration.agent) None in
  Registration.outcome
    (Registration.get_tendermint_configuration Registration.agent
       Registration.empty_configuration Registration.fresh) = Ok true ∧
  Registration.outcome first = Ok tt ∧
  Registration.local_tendermint_params (Registration.final first) = Registration.JObj [] ∧
  Registration.local_tendermint_params (Registration.final first) ≠ Registration.JNull ∧
  head (Registration.trace first) = Some fetch ∧
  head (Registration.trace again) = Some fetch ∧
  ¬ Forall (λ a, ¬ Registration.calls Registration.agent Registration.ConfigFetch a)
           (Registration.trace again).
Proof.
  cbv zeta. split_and!; try by vm_compute.
  intros Hnone. apply Forall_cons_1 in Hnone as [Hfetch _]. by apply Hfetch.
Qed.

(** ** Failing steps of the startup behaviour *)

Section StartupFailures.

Import Registration.

Variable params : Params.
Variable world : World.

Implicit Types (self : Behaviour) (s : Step) (t : list Action).

Lemma behind_nil {A} (run : result A * Behaviour * list Action) : behind [] run = run.
Proof. by destruct run as [[? ?] ?]. Qed.

Lemma sleeps_app t t' : sleeps (t ++ t') = sleeps t ++ sleeps t'.
Proof. apply omap_app. Qed.

Lemma sleeps_quiet t : Forall quiet t → sleeps t = [].
Proof.
  induction 1 as [|a t Ha _ IH]; [done|]. unfold sleeps in *. cbn. rewrite IH.
  by destruct a.
Qed.

Lemma not_done_quiet t : Forall quiet t → SetDone ∉ t.
Proof. intros Hq Hin. by apply (proj1 (Forall_forall _ _) Hq) in Hin. Qed.

(** The steps before the start of the node neither sleep nor complete
    the behaviour. *)
Lemma quiet_step self s :
  s ≠ NodeStart → Forall quiet (trace (run_step params world s self)).
Proof.
  intros Hs. destruct s; [| | |done]; cbn [run_step].
  - rewrite fetch_trace. by repeat constructor.
  - unfold get_addresses, is_correct_contract, get_service_info.
    destruct (service_registry_address params); [|done].
    repeat first
      [ apply Forall_nil_2
      | apply Forall_trace_bind; [|intros ? ?]
      | apply Forall_cons; split; [done|]
      | progress cbn [trace snd ret raise lift read emit set_registered_addresses]
      | match goal with
        | |- Forall _ (trace ((if ?b then _ else _) _)) => destruct b
        end ].
  - unfold update_tendermint_configuration.
    repeat first
      [ apply Forall_nil_2
      | apply Forall_trace_bind; [|intros ? ?]
      | apply Forall_cons; split; [done|]
      | progress cbn [trace snd ret raise lift read emit set_local_tendermint_params]
      | match goal with
        | |- Forall _ (trace ((match ?x with _ => _ end) _)) => destruct x
        end ].
Qed.

Lemma from_collect_none self :
  not_yet_collected self = [] →
  from_collect params world self = from_update params world self.
Proof.
  intros Hnone. unfold from_collect. rewrite bind_read, Hnone. cbn [for_each].
  by rewrite bind_ret, bind_read, Hnone.
Qed.

(** A step that passes hands over to the rest of [async_act]. *)
Lemma resume_passed self self' s :
  passes params world s self self' →
  resume params world s self =
    behind (trace (run_step params world s self))
      match s with
      | ConfigFetch => from_registry params world self'
      | RegistryLookup => from_collect params world self'
      | ConfigUpdate => from_start params world self'
      | NodeStart => base_async_act params self'
      end.
Proof.
  intros [Hout <-].
  destruct s; cbn [resume run_step] in *;
    unfold from_fetch, from_update, from_start; by rewrite bind_run, Hout.
Qed.

(** A step that fails is followed by the sleep of [async_act]. *)
Lemma resume_failed self s :
  outcome (run_step params world s self) = Ok false →
  resume params world s self =
    behind (trace (run_step params world s self))
           (sleep (sleep_time params) (final (run_step params world s self))).
Proof.
  intros Hout.
  destruct s; cbn [resume run_step] in *;
    unfold from_fetch, from_update, from_start; by rewrite bind_run, Hout.
Qed.

(** [async_act] comes to the step it attempts behind a quiet trace. *)
Lemma attempts_run self s self' :
  attempts params world self s self' →
  ∃ t, Forall quiet t ∧
       async_act params world self = behind t (resume params world s self').
Proof.
  induction 1 as [Hlocal|Hlocal Hreg|self1 Hlocal Hpass Hreg|Hlocal Hreg Hnone
                 |self1 Hlocal Hpass Hreg Hnone|self1 self2 _ IH Hpass Hnone
                 |self2 self3 _ IH Hpass].
  - exists []. split; [done|]. by rewrite behind_nil, async_act_from_fetch, Hlocal.
  - exists []. split; [done|]. rewrite behind_nil, async_act_from_fetch, Hlocal.
    cbn [negb]. unfold from_fetch. rewrite bind_ret. cbn [negb].
    by rewrite from_registry_run, Hreg.
  - exists (trace (run_step params world ConfigFetch self)).
    split; [by apply quiet_step|].
    rewrite async_act_from_fetch, Hlocal. cbn [negb].
    change (from_fetch params world _ self) with (resume params world ConfigFetch self).
    rewrite (resume_passed _ _ _ Hpass). by rewrite from_registry_run, Hreg.
  - exists []. split; [done|]. rewrite behind_nil, async_act_from_fetch, Hlocal.
    cbn [negb]. unfold from_fetch. rewrite bind_ret. cbn [negb].
    rewrite from_registry_run, is_empty_false by done. by apply from_collect_none.
  - exists (trace (run_step params world ConfigFetch self)).
    split; [by apply quiet_step|].
    rewrite async_act_from_fetch, Hlocal. cbn [negb].
    change (from_fetch params world _ self) with (resume params world ConfigFetch self).
    rewrite (resume_passed _ _ _ Hpass).
    rewrite from_registry_run, is_empty_false by done. by rewrite from_collect_none.
  - destruct IH as (t & Hquiet & ->).
    exists (t ++ trace (run_step params world RegistryLookup self1)).
    split; [apply Forall_app; split; [done|by apply quiet_step]|].
    rewrite (resume_passed _ _ _ Hpass), behind_behind. by rewrite from_collect_none.
  - destruct IH as (t & Hquiet & ->).
    exists (t ++ trace (run_step params world ConfigUpdate self2)).
    split; [apply Forall_app; split; [done|by apply quiet_step]|].
    by rewrite (resume_passed _ _ _ Hpass), behind_behind.
Qed.

(** C8, amended.  When the step [async_act] attempts is the fetch of the
    configuration, the lookup in the registry or the update of the
    configuration, and the step reports failure, [async_act] returns
    without raising and without completing the behaviour, after exactly
    one sleep of [sleep_time]. *)
Theorem async_act_sleeps_once_after_failure self s self' :
  attempts params world self s self' →
  s ≠ NodeStart →
  outcome (run_step params world s self') = Ok false →
  outcome (async_act params world self) = Ok tt ∧
  sleeps (trace (async_act params world self)) = [sleep_time params] ∧
  last (trace (async_act params world self)) = Some (Sleep (sleep_time params)) ∧
  SetDone ∉ trace (async_act params world self).
Proof.
  intros (t & Hquiet & ->)%attempts_run Hs Hfail.
  rewrite (resume_failed _ _ Hfail), behind_behind.
  pose proof (quiet_step self' s Hs) as Hstep.
  assert (Forall quiet (t ++ trace (run_step params world s self'))) as Hq.
  { by apply Forall_app. }
  cbn. split_and!; [done| | |].
  - by rewrite sleeps_app, (sleeps_quiet _ Hq).
  - by rewrite last_snoc.
  - intros [Hin|Hin]%elem_of_app; [by apply (not_done_quiet _ Hq)|].
    by apply list_elem_of_singleton in Hin.
Qed.

(** What the outside world does to make a step fail. *)
Lemma fetch_fails_on_invalid_json self :
  params_reply world = NotJson →
  outcome (get_tendermint_configuration params world self) = Ok false.
Proof. unfold get_tendermint_configuration. by intros ->. Qed.

Lemma lookup_fails_on_unsuccessful_call self address :
  service_registry_address params = Some address →
  performative (verify_contract_reply world) ≠ GET_STATE →
  outcome (get_addresses params world self) = Ok false.
Proof.
  intros Haddr Hperf. unfold get_addresses, is_correct_contract. rewrite Haddr.
  rewrite !bind_run. cbn. by rewrite bool_decide_eq_false_2.
Qed.

Lemma update_fails_on_invalid_json self kv :
  local_tendermint_params self = JObj kv →
  update_reply world = NotJson →
  outcome (update_tendermint_configuration params world self) = Ok false.
Proof.
  intros Hlocal Hreply. unfold update_tendermint_configuration.
  rewrite !bind_read, Hlocal. cbn [setitem].
  rewrite !bind_run. cbn. by rewrite Hreply.
Qed.

(** Only [json.JSONDecodeError] is caught: a JSON body without a status
    makes the update raise. *)
Lemma update_raises_without_status self kv :
  local_tendermint_params self = JObj kv →
  update_reply world = Parsed (JObj []) →
  outcome (update_tendermint_configuration params world self) = Raise (KeyError "status").
Proof.
  intros Hlocal Hreply. unfold update_tendermint_configuration.
  rewrite !bind_read, Hlocal. cbn [setitem].
  rewrite !bind_run. cbn. by rewrite Hreply.
Qed.

(** The fetch takes any JSON body for the configuration. *)
Lemma fetch_takes_any_json self response :
  params_reply world = Parsed response →
  outcome (get_tendermint_configuration params world self) = Ok true ∧
  local_tendermint_params (final (get_tendermint_configuration params world self))
  = response.
Proof. unfold get_tendermint_configuration. by intros ->. Qed.

(** A start of the node that fails has slept once when it returns. *)
Lemma failed_start_has_slept self :
  outcome (start_tendermint params world self) = Ok false →
  sleeps (trace (start_tendermint params world self)) = [sleep_time params].
Proof.
  unfold start_tendermint. rewrite bind_run. cbn.
  destruct (start_reply world) as [| |response]; [done|done|].
  rewrite bind_run. cbn. destruct (get response "status") as [status|]; [|done].
  cbn. by destruct (eq_int status 200).
Qed.

(** The sleep of [async_act] then comes on top of it. *)
Lemma failed_start_sleeps_again self self' :
  attempts params world self NodeStart self' →
  outcome (start_tendermint params world self') = Ok false →
  outcome (async_act params world self) = Ok tt ∧
  sleeps (trace (async_act params world self)) = [sleep_time params; sleep_time params].
Proof.
  intros (t & Hquiet & ->)%attempts_run Hfail.
  rewrite (resume_failed self' NodeStart Hfail). cbn [run_step].
  unfold behind, sleep, emit, outcome, final, trace. cbn [fst snd].
  split; [done|].
  rewrite !sleeps_app, (sleeps_quiet _ Hquiet).
  fold (trace (start_tendermint params world self')).
  by rewrite (failed_start_has_slept _ Hfail).
Qed.

End StartupFailures.

Lemma async_act_sleeps_once_after_failure_witness :
  Registration.outcome
    (Registration.async_act Registration.agent Registration.unreachable Registration.fresh)
  = Ok tt ∧
  Registration.sleeps
    (Registration.trace
       (Registration.async_act Registration.agent Registration.unreachable
                               Registration.fresh))
  = [5%Z].
Proof.
  destruct (async_act_sleeps_once_after_failure
              Registration.agent Registration.unreachable
              Registration.fresh Registration.ConfigFetch Registration.fresh)
    as (Hout & Hsleeps & _).
  - by constructor.
  - discriminate.
  - reflexivity.
  - by split.
Defined.

(** C8 as stated fails: with the configuration held and every peer
    collected, a start of the node whose response is not JSON makes
    [async_act] sleep twice, once in [start_tendermint] and once more on its
    return. *)
Lemma failed_start_sleeps_twice :
  Registration.start_reply Registration.start_fails = Registration.NotJson ∧
  Registration.outcome
    (Registration.async_act Registration.agent Registration.start_fails Registration.ready)
  = Ok tt ∧
  Registration.sleeps
    (Registration.trace
       (Registration.async_act Registration.agent Registration.start_fails
                               Registration.ready))
  = [5%Z; 5%Z].
Proof. by vm_compute. Qed.

(** * Further properties *)

(** ** The handler's replies *)

Section HandlerReplies.

Import AbstractAbci.

Implicit Types (message : AbciMessage) (dialogue : AbciDialogue) (ctx : Context).

(** Every handler method answers within the dialogue: to the sender of
    the request, targeting it, with a performative that is not the
    exception. *)
Lemma getattr_reply request_type handler message dialogue :
  getattr request_type = Some handler →
  to (handler message dialogue) = sender message ∧
  target (handler message dialogue) = message_id message ∧
  value (performative (handler message dialogue)) = "response_" +:+ request_type.
Proof.
  unfold getattr. intros H.
  repeat (case_decide; [by simplify_eq|]). done.
Qed.

Lemma send_exception_outbox message error ctx :
  outbox (send_exception message error ctx) =
    outbox ctx ++ [create ctx (sender message) RESPONSE_EXCEPTION (Exception error)].
Proof. done. Qed.

(** The messages [handle] has put in the outbox. *)
Lemma handle_outbox recovered message ctx :
  outbox (handle recovered message ctx) =
    outbox ctx ++
    match recovered with
    | None => [create ctx (sender message) RESPONSE_EXCEPTION (Exception "Invalid dialogue.")]
    | Some dialogue =>
        if PyStr.contains "response_" (value (performative message))
        then [create ctx (sender message) RESPONSE_EXCEPTION
                (Exception ("can only handle ABCI requests, received '"
                            +:+ value (performative message) +:+ "'"))]
        else match getattr (PyStr.replace "request_" "" (value (performative message))) with
             | Some handler => [handler message dialogue]
             | None => []
             end
    end.
Proof.
  unfold handle. destruct recovered as [dialogue|]; [|done].
  destruct (PyStr.contains _ _); [done|].
  destruct (getattr _); cbn; [done|by rewrite app_nil_r].
Qed.

(** X1.  Whatever it receives, [handle] keeps the messages already in the
    outbox and adds at most one, addressed to the sender of the message it
    handles. *)
Theorem handle_adds_at_most_one_reply recovered message ctx :
  ∃ new, outbox (handle recovered message ctx) = outbox ctx ++ new ∧
         length new ≤ 1 ∧
         Forall (λ m, to m = sender message) new.
Proof.
  rewrite handle_outbox. eexists. split; [done|].
  destruct recovered as [dialogue|]; [|by repeat constructor].
  destruct (PyStr.contains _ _); [by repeat constructor|].
  destruct (getattr _) as [handler|] eqn:Hget; [|by repeat constructor].
  split; [done|]. repeat constructor. by eapply getattr_reply.
Qed.

(** X2.  [handle] answers with the exception response exactly when the
    message fits no dialogue or its performative is a response. *)
Theorem handle_exception_iff recovered message ctx :
  Exists (λ m, is_exception_reply m = true)
         (drop (length (outbox ctx)) (outbox (handle recovered message ctx))) ↔
  recovered = None ∨ PyStr.contains "response_" (value (performative message)) = true.
Proof.
  rewrite handle_outbox, drop_app_length.
  destruct recovered as [dialogue|]; [|split; [by left|by repeat constructor]].
  destruct (PyStr.contains _ _) eqn:Hresp; [split; [by right|by repeat constructor]|].
  split; [|by intros [|]].
  destruct (getattr _) as [handler|] eqn:Hget; [|by intros ?%Exists_nil].
  intros [Hexc|[]%Exists_nil]%Exists_cons. exfalso.
  remember (PyStr.replace "request_" "" (value (performative message))) as request_type.
  destruct (getattr_reply _ _ message dialogue Hget) as (_ & _ & Hval).
  unfold is_exception_reply in Hexc.
  destruct (performative (handler message dialogue)); try done.
  vm_compute in Hval. injection Hval as Hrt. rewrite <-Hrt in Hget.
  by vm_compute in Hget.
Qed.

(** X3.  A request of a kind the handler has a method for, received in a
    valid dialogue, gets exactly one reply: the response paired with the
    request ([request_x] is answered by [response_x]), targeting the
    request and addressed to its sender. *)
Theorem handle_answers_request_with_its_response message dialogue ctx :
  is_request (performative message) = true →
  has_method (performative message) = true →
  ∃ reply,
    outbox (handle (Some dialogue) message ctx) = outbox ctx ++ [reply] ∧
    value (performative reply) =
      "response_" +:+ PyStr.replace "request_" "" (value (performative message)) ∧
    target reply = message_id message ∧
    to reply = sender message ∧
    sender reply = self_address dialogue.
Proof.
  intros Hreq%is_request_not_response Hhas. rewrite handle_outbox, Hreq.
  unfold has_method in Hhas.
  destruct (getattr _) as [handler|] eqn:Hget; [|done].
  exists (handler message dialogue).
  destruct (getattr_reply _ _ message dialogue Hget) as (Hto & Htarget & Hval).
  split_and!; [done..|].
  revert Hget. unfold getattr. intros H.
  repeat (case_decide; [by simplify_eq|]). done.
Qed.

Lemma handle_answers_request_with_its_response_witness :
  ∃ reply,
    outbox (handle (Some echo_dialogue)
                   {| performative := REQUEST_CHECK_TX; sender := "tendermint"; to := "agent";
                      message_id := 7; target := 0; body := Request [] |} empty_context)
    = [reply] ∧
    performative reply = RESPONSE_CHECK_TX ∧ target reply = 7.
Proof.
  destruct (handle_answers_request_with_its_response
              {| performative := REQUEST_CHECK_TX; sender := "tendermint"; to := "agent";
                 message_id := 7; target := 0; body := Request [] |}
              echo_dialogue empty_context eq_refl eq_refl)
    as (reply & Hout & Hval & Htarget & _).
  exists reply. split_and!; [done| |done].
  destruct (performative reply); vm_compute in Hval; congruence.
Defined.

End HandlerReplies.

(** ** Sequences of payloads *)

Section PayloadSequences.

Import ResetPause ResetAndPauseRound.

Implicit Types (self : Round) (payload : BaseTxPayload) (c : Collection).

(** What a successful [process_payload] has found and done. *)
Lemma process_payload_Ok self payload self' :
  process_payload payload self = (Ok tt, self') →
  (∃ everyone, all_participants (period_state self) = Ok everyone ∧
               py_in (sender payload) everyone = Ok true) ∧
  (sender payload ∉ (collection self).*1) ∧
  self' = with_collection self (collection self ++ [(sender payload, payload)]).
Proof.
  unfold process_payload, bind, get_period_state, lift, get_collection, get_round_id,
    raise, set_collection.
  destruct (all_participants _) as [everyone|]; [|done].
  destruct (py_in _ _) as [[]|] eqn:Hin; [|done|done]. cbn.
  destruct (dict_contains _ _) eqn:Hdup; [done|].
  intros [= <-]. apply not_true_iff_false in Hdup. rewrite dict_contains_spec in Hdup.
  split_and!; [by eexists|done|by rewrite dict_set_fresh].
Qed.

Lemma dict_get_app_fresh {V} key (v : V) (d : list (string * V)) k :
  key ∉ d.*1 →
  dict_get k (d ++ [(key, v)]) = if decide (k = key) then Some v else dict_get k d.
Proof.
  induction d as [|[k' w] d IH]; cbn.
  - intros _. destruct (decide (key = k)), (decide (k = key)); congruence.
  - intros [Hne Hnin]%not_elem_of_cons. rewrite IH by done.
    destruct (decide (k' = k)) as [->|]; [|done]. by rewrite decide_False.
Qed.

(** X4.  [check_payload] accepts a payload exactly when [process_payload]
    would record it: what validation lets through never fails at
    delivery on the same round. *)
Theorem check_payload_accepts_what_process_payload_records self payload :
  (check_payload payload self).1 = Ok tt ↔ (process_payload payload self).1 = Ok tt.
Proof.
  unfold check_payload, process_payload, bind, get_period_state, lift, get_collection,
    get_round_id, raise, set_collection, ret.
  destruct (all_participants _) as [everyone|]; [|done].
  destruct (py_in _ _) as [[]|]; [|done|done]. cbn.
  by destruct (dict_contains _ _).
Qed.

(** X5.  A [process_payload] that raises leaves the round as it was,
    whatever the payload and the error. *)
Theorem process_payload_failure_keeps_round self payload e :
  (process_payload payload self).1 = Raise e →
  (process_payload payload self).2 = self.
Proof.
  unfold process_payload, bind, get_period_state, lift, get_collection,
    get_round_id, raise, set_collection.
  destruct (all_participants _) as [everyone|]; [|done].
  destruct (py_in _ _) as [[]|]; [|done|done]. cbn.
  by destruct (dict_contains _ _).
Qed.

Lemma process_payload_failure_keeps_round_witness :
  (process_payload (Scenario.payload "A" 9).2 (Scenario.round Scenario.undecided)).2
  = Scenario.round Scenario.undecided.
Proof.
  eapply process_payload_failure_keeps_round. vm_compute. reflexivity.
Defined.

(** X6.  After a successful [process_payload] the collection maps the
    sender to the payload and every other sender to what it mapped to
    before, the period state is untouched, and a further payload of the
    same sender is refused by [check_payload] as already sent. *)
Theorem process_payload_then_lookup self payload self' :
  process_payload payload self = (Ok tt, self') →
  dict_get (sender payload) (collection self') = Some payload ∧
  (∀ k, k ≠ sender payload →
        dict_get k (collection self') = dict_get k (collection self)) ∧
  period_state self' = period_state self ∧
  ∀ payload', sender payload' = sender payload →
    check_payload payload' self' =
      (Raise (TransactionNotValidError (AlreadySent (sender payload) (round_id self))), self').
Proof.
  intros ((everyone & Hall & Hin) & Hnew & ->)%process_payload_Ok. cbn.
  split_and!; [| |done|].
  - by rewrite dict_get_app_fresh, decide_True.
  - intros k Hk. by rewrite dict_get_app_fresh, decide_False.
  - intros payload' Hsame.
    unfold check_payload, bind, get_period_state, lift, get_collection, get_round_id,
      raise, ret. cbn. rewrite Hall, Hsame, Hin. cbn.
    unfold dict_contains. rewrite bool_decide_eq_true_2; [done|].
    rewrite fmap_app. apply elem_of_app. right. by apply list_elem_of_singleton.
Qed.

Lemma process_payload_then_lookup_witness :
  dict_get "C" Scenario.split = Some (Scenario.payload "C" 3).2.
Proof.
  apply (process_payload_then_lookup (Scenario.round Scenario.undecided)
           (Scenario.payload "C" 3).2 (Scenario.round Scenario.split)).
  reflexivity.
Defined.

(** One step keeps the senders distinct, among the participants and in
    front of their own payload. *)
Lemma process_payload_keeps_collection_sound self payload (everyone : list Address) :
  all_participants (period_state self) = Ok (VAddrs everyone) →
  let c' := collection (process_payload payload self).2 in
  (NoDup (collection self).*1 → NoDup c'.*1) ∧
  (∀ k p, (k, p) ∈ c' → (k, p) ∈ collection self ∨
                        (p = payload ∧ k = sender payload ∧ k ∈ everyone)) ∧
  period_state (process_payload payload self).2 = period_state self.
Proof.
  intros Hall. rewrite (process_payload_eq _ _ _ Hall).
  destruct (decide (sender payload ∈ everyone)) as [Hin|];
    [destruct (decide (sender payload ∈ (collection self).*1)) as [|Hnew]|]; cbn;
    [by eauto| |by eauto].
  split_and!; [|intros k p [?|Hlast]%elem_of_app; [by left|right]|done].
  - intros Hnd. rewrite fmap_app. apply NoDup_app. split_and!; [done| |by apply NoDup_singleton].
    intros k Hk ->%list_elem_of_singleton. done.
  - apply list_elem_of_singleton in Hlast. by simplify_eq.
Qed.

(** X7.  Started on an empty collection, any sequence of [process_payload]
    calls leaves at most one payload per sender: the senders recorded are
    distinct, each is a participant and stands in front of a payload it
    sent itself, taken from the sequence; so the collection never grows
    beyond the number of participants. *)
Theorem process_all_one_payload_per_participant self payloads (everyone : list Address) :
  all_participants (period_state self) = Ok (VAddrs everyone) →
  collection self = [] →
  let c := collection (process_all payloads self) in
  NoDup c.*1 ∧
  (∀ k p, (k, p) ∈ c → sender p = k ∧ k ∈ everyone ∧ p ∈ payloads) ∧
  length c ≤ length everyone.
Proof.
  intros Hall Hempty.
  assert (∀ payloads self,
            all_participants (period_state self) = Ok (VAddrs everyone) →
            NoDup (collection self).*1 →
            NoDup (collection (process_all payloads self)).*1 ∧
            ∀ k p, (k, p) ∈ collection (process_all payloads self) →
                   (k, p) ∈ collection self ∨
                   (sender p = k ∧ k ∈ everyone ∧ p ∈ payloads)) as Hinv.
  { clear. induction payloads as [|payload payloads IH]; intros self Hall Hnd; cbn.
    { split; [done|]. by left. }
    destruct (process_payload_keeps_collection_sound self payload everyone Hall)
      as (Hnd' & Hfrom & Hps).
    destruct (IH (process_payload payload self).2) as [Hnd'' Hfrom''];
      [by rewrite Hps|by apply Hnd'|].
    split; [done|]. intros k p Hin.
    destruct (Hfrom'' k p Hin) as [Hold|(? & ? & ?)].
    - destruct (Hfrom k p Hold) as [?|(-> & -> & ?)]; [by left|right].
      split_and!; [done|done|by left].
    - right. split_and!; [done|done|by right]. }
  destruct (Hinv payloads self Hall) as [Hnd Hfrom]; [rewrite Hempty; constructor|].
  cbn. split_and!; [done| |].
  - intros k p Hin. destruct (Hfrom k p Hin) as [Hold|?]; [|done].
    rewrite Hempty in Hold. by apply elem_of_nil in Hold.
  - rewrite <-(length_fmap fst). apply submseteq_length, NoDup_submseteq; [done|].
    intros k [[k' p] [-> Hin]]%list_elem_of_fmap.
    destruct (Hfrom k' p Hin) as [Hold|(? & ? & ?)]; [|done].
    rewrite Hempty in Hold. by apply elem_of_nil in Hold.
Qed.

Lemma process_all_one_payload_per_participant_witness :
  length (collection (process_all
            [(Scenario.payload "A" 1).2; (Scenario.payload "A" 2).2;
             (Scenario.payload "E" 1).2; (Scenario.payload "B" 2).2]
            (Scenario.round []))) ≤ 4.
Proof.
  apply (process_all_one_payload_per_participant (Scenario.round [])
           [(Scenario.payload "A" 1).2; (Scenario.payload "A" 2).2;
            (Scenario.payload "E" 1).2; (Scenario.payload "B" 2).2]
           ["A"; "B"; "C"; "D"]); reflexivity.
Defined.

End PayloadSequences.

(** ** Delivery order *)

Section DeliveryOrder.

Import ResetPause ResetAndPauseRound.

Implicit Types (self : Round) (payload : BaseTxPayload).

Lemma filter_ext_in {A} (P Q : A → Prop) `{∀ x, Decision (P x)} `{∀ x, Decision (Q x)}
    (l : list A) :
  (∀ x, x ∈ l → P x ↔ Q x) → filter P l = filter Q l.
Proof.
  induction l as [|x l IH]; [done|]. intros Hext. rewrite !filter_cons.
  rewrite IH by (intros y ?; apply Hext; by right).
  destruct (decide (P x)) as [HP|HP], (decide (Q x)) as [HQ|HQ]; try done;
    exfalso; apply (Hext x) in HP || apply (Hext x) in HQ; by try left.
Qed.

(** The collection after a sequence of payloads of distinct senders: the
    accepted ones, appended in the order of the sequence. *)
Lemma process_all_collection self payloads (everyone : list Address) :
  all_participants (period_state self) = Ok (VAddrs everyone) →
  NoDup (sender <$> payloads) →
  collection (process_all payloads self) =
    collection self ++
    ((λ payload, (sender payload, payload)) <$>
       filter (λ payload, sender payload ∈ everyone ∧
                          sender payload ∉ (collection self).*1) payloads).
Proof.
  revert self. induction payloads as [|payload payloads IH]; intros self Hall Hnd;
    cbn [process_all].
  { by rewrite filter_nil, fmap_nil, app_nil_r. }
  apply NoDup_cons in Hnd as [Hfresh Hnd]. rewrite filter_cons.
  rewrite (process_payload_eq _ _ _ Hall).
  destruct (decide (sender payload ∈ everyone)) as [Hin|Hout];
    [destruct (decide (sender payload ∈ (collection self).*1)) as [Hdup|Hnew]|];
    cbn [snd].
  - rewrite decide_False by tauto. by apply IH.
  - rewrite decide_True by done. rewrite IH by done.
    cbn [with_collection collection period_state].
    rewrite fmap_cons, <-app_assoc. cbn [app]. do 3 f_equal.
    apply filter_ext_in. intros q Hq. rewrite fmap_app, elem_of_app.
    cbn [fmap list_fmap fst]. rewrite list_elem_of_singleton.
    assert (sender q ≠ sender payload); [|tauto].
    intros Heq. apply Hfresh. rewrite <-Heq. by apply list_elem_of_fmap_2.
  - rewrite decide_False by tauto. by apply IH.
Qed.

(** X8.  Payloads of distinct senders can be processed in any order: the
    collections obtained hold the same bindings, in the order of
    delivery. *)
Theorem process_all_order_only_permutes self payloads1 payloads2 (everyone : list Address) :
  all_participants (period_state self) = Ok (VAddrs everyone) →
  NoDup (sender <$> payloads1) →
  payloads1 ≡ₚ payloads2 →
  collection (process_all payloads1 self) ≡ₚ collection (process_all payloads2 self).
Proof.
  intros Hall Hnd Hperm.
  rewrite !(process_all_collection _ _ _ Hall); [|by rewrite <-Hperm|done].
  by rewrite Hperm.
Qed.

Lemma process_all_order_only_permutes_witness :
  collection (process_all [(Scenario.payload "A" 1).2; (Scenario.payload "B" 2).2]
                          (Scenario.round []))
  ≡ₚ collection (process_all [(Scenario.payload "B" 2).2; (Scenario.payload "A" 1).2]
                             (Scenario.round [])).
Proof.
  apply (process_all_order_only_permutes (Scenario.round []) _ _ ["A"; "B"; "C"; "D"]).
  - reflexivity.
  - apply (bool_decide_unpack _). by vm_compute.
  - apply perm_swap.
Defined.

End DeliveryOrder.

(** ** Errors of [end_block] *)

Section EndBlockErrors.

Import ResetPause.

Implicit Types (self : Round) (ps : BasePeriodState).

Lemma keywords_Raise names explicit d e :
  keywords names explicit d = Raise e → e = TypeError.
Proof. unfold keywords. case_bool_decide; congruence. Qed.

(** The loop over the persisted keys stops at the first key that was
    never written. *)
Lemma persisted_missing ps before key after acc :
  (∀ k, k ∈ before → is_Some (db_data ps !! k)) →
  db_data ps !! key = None →
  ResetAndPauseRound.persisted ps (before ++ key :: after) acc = Raise (KeyNotFoundError key).
Proof.
  revert acc. induction before as [|k before IH]; intros acc Hset Hnone; cbn.
  - unfold get_strict. by rewrite Hnone.
  - destruct (Hset k) as [v Hv]; [by left|].
    apply get_strict_Ok in Hv. rewrite Hv. cbn. apply IH; [|done].
    intros k' ?. apply Hset. by right.
Qed.

(** X9.  At the threshold, [ResetAndPauseRound.end_block] raises
    [KeyNotFoundError] for the first cross-period-persisted key that the
    store does not hold, and returns no decision. *)
Theorem reset_and_pause_raises_on_unset_persisted_key self before key after :
  threshold_reached self = Ok true →
  cross_period_persisted_keys (period_state self) = before ++ key :: after →
  (∀ k, k ∈ before → is_Some (db_data (period_state self) !! k)) →
  db_data (period_state self) !! key = None →
  ResetAndPauseRound.end_block self = Raise (KeyNotFoundError key).
Proof.
  intros Hthr Hkeys Hset Hnone. unfold ResetAndPauseRound.end_block.
  rewrite Hthr. cbn. by rewrite Hkeys, (persisted_missing _ _ _ _ _ Hset Hnone).
Qed.

(** X10.  At the threshold, [ResetAndPauseRound.end_block] raises
    [TypeError] when a cross-period-persisted key carries the name of a
    keyword the round passes to [update] itself ([period_count],
    [participants], [all_participants]): the call repeats the keyword. *)
Theorem reset_and_pause_raises_on_repeated_keyword self key :
  threshold_reached self = Ok true →
  (∀ k, k ∈ cross_period_persisted_keys (period_state self) →
        is_Some (db_data (period_state self) !! k)) →
  is_Some (db_data (period_state self) !! "participants") →
  is_Some (db_data (period_state self) !! "all_participants") →
  key ∈ cross_period_persisted_keys (period_state self) →
  key ∈ reserved →
  ResetAndPauseRound.end_block self = Raise TypeError.
Proof.
  intros Hthr Hset [p Hp] [everyone Ha] Hkey Hres.
  destruct (persisted_total (period_state self)
              (cross_period_persisted_keys (period_state self)) ∅ Hset) as [extra Hextra].
  destruct (most_voted_payload_reached _ Hthr) as [v Hv].
  pose proof (persisted_Ok _ _ _ _ Hextra) as [_ Hlook].
  apply get_strict_Ok in Hp, Ha.
  unfold ResetAndPauseRound.end_block, participants, all_participants.
  rewrite Hthr. cbn. rewrite Hextra. cbn. rewrite Hv. cbn. rewrite Hp, Ha. cbn.
  destruct (keywords _ _ _) as [kwargs|e] eqn:Hk; cbn.
  - exfalso. apply keywords_Ok in Hk as [Hfree _].
    specialize (Hfree key Hres). rewrite Hlook, decide_True in Hfree by done.
    destruct (Hset key Hkey) as [? ?]. congruence.
  - by rewrite (keywords_Raise _ _ _ _ Hk).
Qed.

End EndBlockErrors.

Lemma reset_and_pause_raises_on_unset_persisted_key_witness :
  ResetPause.ResetAndPauseRound.end_block
    (Scenario.round_persisting ["safe_contract_address"; "oracle"; "keeper"])
  = Raise (KeyNotFoundError "oracle").
Proof.
  apply (reset_and_pause_raises_on_unset_persisted_key
           (Scenario.round_persisting ["safe_contract_address"; "oracle"; "keeper"])
           ["safe_contract_address"] "oracle" ["keeper"]).
  - by vm_compute.
  - reflexivity.
  - intros k ->%list_elem_of_singleton. by eexists.
  - reflexivity.
Defined.

Lemma reset_and_pause_raises_on_repeated_keyword_witness :
  ResetPause.ResetAndPauseRound.end_block
    (Scenario.round_persisting ["safe_contract_address"; "participants"])
  = Raise TypeError.
Proof.
  apply (reset_and_pause_raises_on_repeated_keyword
           (Scenario.round_persisting ["safe_contract_address"; "participants"])
           "participants").
  - by vm_compute.
  - intros k [->|[->|[]%elem_of_nil]%elem_of_cons]%elem_of_cons; by eexists.
  - by eexists.
  - by eexists.
  - by apply (bool_decide_unpack _).
  - by apply (bool_decide_unpack _).
Defined.

(** ** The transition graph of the application *)

Section Application.

Import ResetPause ResetPauseABCIApp.

Implicit Types (self : Round) (state : AppState) (event : Event).

(** The decisions of the two rounds carry [DONE] or [NO_MAJORITY] only,
    and [NO_MAJORITY] comes with the period state of the round. *)
Lemma reset_round_events self st event :
  ResetPause.ResetRound.end_block self = Ok (Some (st, event)) →
  event = DONE ∨ (event = NO_MAJORITY ∧ st = period_state self).
Proof.
  unfold ResetPause.ResetRound.end_block.
  destruct (threshold_reached self) as [[]|]; [| |done]; cbn.
  - destruct (most_voted_payload self); [|done]. cbn.
    destruct (keywords _ _ _); [|done]. cbn. intros [= <- <-]. by left.
  - destruct (nb_participants _); [|done]. cbn.
    destruct (negb _); [|done]. intros [= <- <-]. by right.
Qed.

Lemma reset_and_pause_events self st event :
  ResetPause.ResetAndPauseRound.end_block self = Ok (Some (st, event)) →
  event = DONE ∨ (event = NO_MAJORITY ∧ st = period_state self).
Proof.
  unfold ResetPause.ResetAndPauseRound.end_block.
  destruct (threshold_reached self) as [[]|]; [| |done]; cbn.
  - destruct (ResetPause.ResetAndPauseRound.persisted _ _ _); [|done]. cbn.
    destruct (most_voted_payload self); [|done]. cbn.
    destruct (participants _); [|done]. cbn.
    destruct (all_participants _); [|done]. cbn.
    destruct (keywords _ _ _); [|done]. cbn. intros [= <- <-]. by left.
  - destruct (nb_participants _); [|done]. cbn.
    destruct (negb _); [|done]. intros [= <- <-]. by right.
Qed.

(** X11.  Every decision [end_block] returns carries [DONE] or
    [NO_MAJORITY], never an event of [event_to_timeout], and has an edge
    in the transition function of the application: [DONE] leads the round
    to a final state and [NO_MAJORITY] back to the round itself, with the
    period state unchanged. *)
Theorem end_block_decisions_have_transitions self st event :
  (ResetPause.ResetRound.end_block self = Ok (Some (st, event)) →
   (event = DONE ∨ event = NO_MAJORITY) ∧
   (event ∉ event_to_timeout.*1) ∧
   ∃ next, transition ResetRound event = Some next ∧
           if decide (event = DONE) then next ∈ final_states
           else next = ResetRound ∧ st = period_state self) ∧
  (ResetPause.ResetAndPauseRound.end_block self = Ok (Some (st, event)) →
   (event = DONE ∨ event = NO_MAJORITY) ∧
   (event ∉ event_to_timeout.*1) ∧
   ∃ next, transition ResetAndPauseRound event = Some next ∧
           if decide (event = DONE) then next ∈ final_states
           else next = ResetAndPauseRound ∧ st = period_state self).
Proof.
  split.
  - intros [->|[-> ->]]%reset_round_events;
      (split_and!; [auto|by apply (bool_decide_unpack _)|]);
      eexists; (split; [reflexivity|]); cbn;
      [by apply (bool_decide_unpack _)|done].
  - intros [->|[-> ->]]%reset_and_pause_events;
      (split_and!; [auto|by apply (bool_decide_unpack _)|]);
      eexists; (split; [reflexivity|]); cbn;
      [by apply (bool_decide_unpack _)|done].
Qed.

(** X12.  Started in one of its initial states, the application is, after
    any sequence of events it accepts, either still in that round or in a
    final state; a final state accepts no event. *)
Theorem application_stays_or_finishes start events state :
  start ∈ initial_states →
  run start events = Some state →
  (state = start ∨ state ∈ final_states) ∧
  (∀ final event, final ∈ final_states → transition final event = None).
Proof.
  intros Hstart Hrun. split.
  - assert (∀ rest s, (s = start ∨ s ∈ final_states) → run s rest = Some state →
                      state = start ∨ state ∈ final_states) as Hinv.
    { clear Hrun. intros rest. induction rest as [|event rest IH]; intros s Hs; cbn.
      { by intros [= <-]. }
      destruct (transition s event) as [next|] eqn:Hnext; [|done].
      apply IH. clear IH Hstart.
      destruct s, event; vm_compute in Hnext; simplify_eq;
        first [ by right; apply (bool_decide_unpack _)
              | destruct Hs as [<-|Hs];
                [by left|exfalso; revert Hs; by apply (bool_decide_unpack _)] ]. }
    by apply (Hinv events start); [left|].
  - intros final event Hfinal. unfold final_states in Hfinal.
    destruct final, event; try reflexivity;
      exfalso; revert Hfinal; by apply (bool_decide_unpack _).
Qed.

Lemma application_stays_or_finishes_witness :
  run ResetRound [NO_MAJORITY; RESET_TIMEOUT; DONE] = Some FinishedResetRound ∧
  FinishedResetRound ∈ final_states.
Proof.
  destruct (application_stays_or_finishes ResetRound [NO_MAJORITY; RESET_TIMEOUT; DONE]
              FinishedResetRound) as [[Habs|Hfinal] _].
  - by apply (bool_decide_unpack _).
  - reflexivity.
  - discriminate Habs.
  - by split.
Defined.

End Application.

Lemma end_block_decisions_have_transitions_witness :
  (ResetPause.NO_MAJORITY ∉ ResetPause.ResetPauseABCIApp.event_to_timeout.*1) ∧
  ∃ next, ResetPause.ResetPauseABCIApp.transition
            ResetPause.ResetPauseABCIApp.ResetAndPauseRound ResetPause.NO_MAJORITY = Some next ∧
          next = ResetPause.ResetPauseABCIApp.ResetAndPauseRound.
Proof.
  destruct (end_block_decisions_have_transitions (Scenario.round Scenario.split)
              Scenario.state ResetPause.NO_MAJORITY) as [_ Hpause].
  destruct Hpause as (_ & Hevent & next & Hnext & Hsame & _); [by vm_compute|].
  split; [done|]. by exists next.
Defined.

(** ** The steps of the startup behaviour *)

Section StartupSteps.

Import Registration.

Variable params : Params.
Variable world : World.

Implicit Types (self : Behaviour) (s : Step) (t : list Action).

(** Unfolds a step down to the answers of the world. *)
Ltac run_step_cases :=
  unfold get_addresses, is_correct_contract, get_service_info,
    get_tendermint_configuration, update_tendermint_configuration, start_tendermint,
    sleep, bind, emit, ret, raise, lift, read, set_registered_addresses,
    set_local_tendermint_params, outcome, final, trace;
  repeat case_match; simplify_eq; cbn in *.

Lemma key_eqb_JStr k a : key_eqb k (JStr a) = true → k = JStr a.
Proof. destruct k; cbn; try done. by intros ->%bool_decide_eq_true. Qed.

Lemma dict_set_nonempty key v d : Registration.dict_set key v d ≠ [].
Proof. destruct d as [|[k w] d]; cbn; [done|]. by destruct (key_eqb k key). Qed.

Lemma key_eqb_JStr_sym a k : key_eqb (JStr a) k = key_eqb k (JStr a).
Proof. destruct k; cbn; try done. apply bool_decide_ext. split; congruence. Qed.

(** Assigning to a key that the dictionary holds replaces its value. *)
Lemma dict_set_held a v (d : list (Json * Json)) :
  key_in (JStr a) d.*1 = true → (JStr a, v) ∈ Registration.dict_set (JStr a) v d.
Proof.
  unfold key_in. induction d as [|[k w] d IH]; [done|].
  cbn [fmap list_fmap fst existsb Registration.dict_set].
  rewrite key_eqb_JStr_sym.
  destruct (key_eqb k (JStr a)) eqn:Hk; cbn.
  - apply key_eqb_JStr in Hk as ->. intros _. by left.
  - intros ?. right. by apply IH.
Qed.

(** The keys of [dict.fromkeys(l)]. *)
Lemma fromkeys_keys (l : list Json) (v : Json) : ((λ a, (a, v)) <$> l).*1 = l.
Proof. induction l as [|a l IH]; [done|]. cbn. by rewrite IH. Qed.

(** Assigning to a string key of a dictionary whose values are all [v0]
    leaves [v0] at every other key. *)
Lemma dict_set_others a v v0 (d : list (Json * Json)) k w :
  (∀ k' w', (k', w') ∈ d → w' = v0) →
  (k, w) ∈ Registration.dict_set (JStr a) v d → k ≠ JStr a → w = v0.
Proof.
  induction d as [|[k' w'] d IH]; cbn; intros Hall.
  - by intros [= -> ->]%list_elem_of_singleton.
  - destruct (key_eqb k' (JStr a)) eqn:Hk.
    + apply key_eqb_JStr in Hk as ->.
      intros [[= -> ->]|Hin]%elem_of_cons; [done|]. intros _.
      eapply Hall. by right.
    + intros [[= -> ->]|Hin]%elem_of_cons.
      * intros _. eapply Hall. by left.
      * apply IH; [|done]. intros ???. eapply Hall. by right.
Qed.

(** Assigning to a key that the dictionary holds keeps its keys. *)
Lemma dict_set_keys a v (d : list (Json * Json)) :
  key_in (JStr a) d.*1 = true → (Registration.dict_set (JStr a) v d).*1 = d.*1.
Proof.
  unfold key_in. induction d as [|[k w] d IH]; [done|].
  cbn [fmap list_fmap fst existsb Registration.dict_set].
  rewrite key_eqb_JStr_sym.
  destruct (key_eqb k (JStr a)) eqn:Hk; cbn [orb]; [done|].
  intros Hin. cbn. f_equal. by apply IH.
Qed.

Lemma key_eqb_refl x : hashable x = true → key_eqb x x = true.
Proof.
  destruct x as [|b|z|text|l|kv]; cbn; try done; intros _.
  - by apply bool_decide_eq_true.
  - by apply Z.eqb_eq.
  - by apply bool_decide_eq_true.
Qed.

Lemma key_in_elem x (l : list Json) : hashable x = true → x ∈ l → key_in x l = true.
Proof.
  intros Hx Hin. unfold key_in. apply existsb_exists. exists x.
  split; [by apply list_elem_of_In|by apply key_eqb_refl].
Qed.

(** The elements [dedupe] keeps are pairwise distinct and none of them
    has been seen. *)
Lemma dedupe_NoDup (l seen : list Json) :
  forallb hashable l = true →
  NoDup (dedupe l seen) ∧ ∀ x, x ∈ dedupe l seen → key_in x seen = false.
Proof.
  revert seen. induction l as [|x l IH]; intros seen; cbn [forallb dedupe].
  { intros _. split; [constructor|]. by intros ? ?%elem_of_nil. }
  intros [Hx Hl]%andb_true_iff.
  destruct (key_in x seen) eqn:Hseen; [by apply IH|].
  destruct (IH (x :: seen) Hl) as [Hnodup Hfresh]. split.
  - constructor; [|done]. intros Hin%Hfresh.
    by rewrite (key_in_elem x (x :: seen) Hx) in Hin by left.
  - intros y [->|Hy%Hfresh]%elem_of_cons; [done|].
    unfold key_in in Hy |- *. cbn [existsb] in Hy.
    by apply orb_false_iff in Hy as [_ ?].
Qed.

Lemma hashable_chars (text : string) : forallb hashable (chars text) = true.
Proof. induction text as [|c text IH]; [done|]. by cbn. Qed.

Lemma hashable_JStr (l : list string) : forallb hashable (JStr <$> l) = true.
Proof. induction l as [|k l IH]; [done|]. by cbn. Qed.

(** A dictionary binds a key once. *)
Lemma keys_bind_once {K V} (d : list (K * V)) k v w :
  NoDup d.*1 → (k, v) ∈ d → (k, w) ∈ d → v = w.
Proof.
  induction d as [|[k' v'] d IH]; cbn; [by intros _ ?%elem_of_nil|].
  intros [Hk Hd]%NoDup_cons Hv Hw.
  apply elem_of_cons in Hv as [Hv|Hv]; apply elem_of_cons in Hw as [Hw|Hw];
    simplify_eq; [done| | |by apply IH];
    destruct Hk; apply list_elem_of_fmap; eexists; (split; [|eassumption]); done.
Qed.

(** The elements of a [set] are pairwise distinct. *)
Lemma set_NoDup x l : Registration.set x = Ok l → NoDup l.
Proof.
  destruct x as [|b|z|text|elements|kv]; cbn; try done.
  - intros [= <-]. by apply dedupe_NoDup, hashable_chars.
  - destruct (forallb hashable elements) eqn:Hh; [|done].
    intros [= <-]. by apply dedupe_NoDup.
  - intros [= <-]. by apply dedupe_NoDup, hashable_JStr.
Qed.

(** X13.  When [get_addresses] returns [True] both contract calls have
    been made, and the registered addresses it stores are not empty: they
    are keyed by the distinct members of [set(service_info["agent_instances"])],
    the agent's own address is among them, mapped to its Tendermint URL,
    and every other address is mapped to [None]; nothing else of the
    behaviour has changed. *)
Theorem get_addresses_registers_agent self :
  outcome (get_addresses params world self) = Ok true →
  let self' := final (get_addresses params world self) in
  trace (get_addresses params world self) =
    [ContractCall "verify_contract"; ContractCall "get_service_info"] ∧
  registered_addresses self' ≠ [] ∧
  (∃ service_info instances,
     getitem (JObj (state_body (get_service_info_reply world))) "verified" = Ok service_info ∧
     getitem service_info "agent_instances" = Ok instances ∧
     Registration.set instances = Ok (registered_addresses self').*1) ∧
  NoDup (registered_addresses self').*1 ∧
  (JStr (agent_address params), JStr (tendermint_url params)) ∈ registered_addresses self' ∧
  (∀ k v, (k, v) ∈ registered_addresses self' →
          (k = JStr (agent_address params) ∧ v = JStr (tendermint_url params)) ∨
          (k ≠ JStr (agent_address params) ∧ v = JNull)) ∧
  local_tendermint_params self' = local_tendermint_params self ∧
  collected self' = collected self.
Proof.
  run_step_cases; intros Hout; try discriminate Hout.
  match goal with
  | Hs : Registration.set _ = Ok ?l, Hm : negb (key_in _ ?l) = false |- _ =>
      rename l into members, Hs into Hset, Hm into Hmember
  end.
  apply negb_false_iff in Hmember.
  set (info := (λ a : Json, (a, JNull)) <$> members).
  assert (key_in (JStr (agent_address params)) info.*1 = true) as Hmine.
  { unfold info. by rewrite fromkeys_keys. }
  pose proof (dict_set_keys _ (JStr (tendermint_url params)) _ Hmine) as Hkeys.
  unfold info in Hkeys at 2. rewrite fromkeys_keys in Hkeys.
  assert (∀ k' w', (k', w') ∈ info → w' = JNull) as Hnone.
  { by intros k' w' (instance & [= -> ->] & _)%list_elem_of_fmap. }
  pose proof (dict_set_held _ (JStr (tendermint_url params)) _ Hmine) as Hagent.
  assert (NoDup (Registration.dict_set (JStr (agent_address params))
                   (JStr (tendermint_url params)) info).*1) as Hnodup.
  { rewrite Hkeys. by eapply set_NoDup. }
  split_and!; [done|apply dict_set_nonempty| |done|done| |done|done].
  - eexists _, _. split_and!; [done..|]. by rewrite Hkeys.
  - intros k v Hin.
    assert (Decision (k = JStr (agent_address params))) as [->|Hne].
    { destruct k as [| | |text| |]; try (right; discriminate).
      destruct (decide (text = agent_address params)) as [->|]; [by left|].
      right. congruence. }
    + left. split; [done|]. by eapply keys_bind_once.
    + right. split; [done|]. by eapply dict_set_others.
Qed.

(** X14.  [get_addresses] changes the behaviour only when it returns
    [True]; without a registry address it raises [RuntimeError] before any
    contract call. *)
Theorem get_addresses_changes_nothing_unless_true self :
  (outcome (get_addresses params world self) ≠ Ok true →
   final (get_addresses params world self) = self) ∧
  (service_registry_address params = None →
   get_addresses params world self =
     (Raise (RuntimeError "Service registry contract address not provided"), self, [])).
Proof.
  split.
  - run_step_cases; by intros ?.
  - intros Hnone. unfold get_addresses. by rewrite Hnone.
Qed.

(** X15.  [get_addresses] calls [verify_contract] first and
    [get_service_info] only after an answer that verifies the contract;
    it makes no third call. *)
Theorem get_addresses_calls_in_order self :
  (trace (get_addresses params world self) = [] ∨
   trace (get_addresses params world self) = [ContractCall "verify_contract"] ∨
   trace (get_addresses params world self) =
     [ContractCall "verify_contract"; ContractCall "get_service_info"]) ∧
  (ContractCall "get_service_info" ∈ trace (get_addresses params world self) →
   performative (verify_contract_reply world) = GET_STATE ∧
   ∃ answer, assoc "verified" (state_body (verify_contract_reply world)) = Some answer ∧
             truthy answer = true).
Proof.
  split.
  - run_step_cases; auto.
  - run_step_cases; intros Hin;
      repeat match goal with
        | H : _ ∈ [] |- _ => by apply elem_of_nil in H
        | H : _ ∈ _ :: _ |- _ => apply elem_of_cons in H as [?|H]; simplify_eq
        end;
      repeat match goal with
        | H : negb _ = false |- _ => apply negb_false_iff in H
        | H : bool_decide _ = true |- _ => apply bool_decide_eq_true in H
        | H : match ?x with _ => _ end = Ok _ |- _ => destruct x eqn:?; simplify_eq
        end;
      (split; [done|]); eexists; split; done.
Qed.

Lemma assoc_obj_set key v kv k :
  assoc k (obj_set key v kv) = if decide (k = key) then Some v else assoc k kv.
Proof.
  induction kv as [|[k' w] kv IH]; cbn.
  - destruct (decide (key = k)), (decide (k = key)); congruence.
  - destruct (decide (k' = key)) as [->|Hne]; cbn.
    + destruct (decide (key = k)), (decide (k = key)); congruence.
    + rewrite IH. destruct (decide (k' = k)) as [->|]; [|done].
      by rewrite decide_False.
Qed.

(** The update on a dictionary: the request is made and the dictionary
    with its seeds kept before the answer is looked at. *)
Lemma update_run self kv :
  local_tendermint_params self = JObj kv →
  update_tendermint_configuration params world self =
    let posted := JObj (obj_set "p2p_seeds" (JArr (registered_addresses self).*2) kv) in
    (match update_reply world with
     | NotText => Raise UnicodeDecodeError
     | Parsed response => status ← getitem response "status"; Ok (eq_int status 200)
     | NotJson => Ok false
     end,
     {| local_tendermint_params := posted;
        registered_addresses := registered_addresses self;
        collected := collected self |},
     [HttpRequest "POST" (tendermint_parameter_url params) (Some posted)]).
Proof.
  intros Hlocal.
  unfold update_tendermint_configuration, bind, read, lift, emit, raise, ret,
    set_local_tendermint_params.
  rewrite Hlocal. cbn. destruct (update_reply world) as [| |response]; [done|done|].
  by destruct (getitem response "status").
Qed.

(** X16.  [update_tendermint_configuration] posts the configuration it
    holds with [p2p_seeds] set to the values of the registered addresses,
    every other parameter unchanged, and keeps that very configuration in
    [local_tendermint_params] whatever the answer to the request is. *)
Theorem update_posts_and_keeps_seeds self kv :
  local_tendermint_params self = JObj kv →
  ∃ posted,
    trace (update_tendermint_configuration params world self) =
      [HttpRequest "POST" (tendermint_parameter_url params) (Some (JObj posted))] ∧
    local_tendermint_params (final (update_tendermint_configuration params world self))
      = JObj posted ∧
    assoc "p2p_seeds" posted = Some (JArr (registered_addresses self).*2) ∧
    (∀ k, k ≠ "p2p_seeds" → assoc k posted = assoc k kv) ∧
    registered_addresses (final (update_tendermint_configuration params world self))
      = registered_addresses self.
Proof.
  intros Hlocal. exists (obj_set "p2p_seeds" (JArr (registered_addresses self).*2) kv).
  rewrite (update_run _ _ Hlocal). unfold trace, final. cbn.
  split_and!; [done|done| | |done].
  - by rewrite assoc_obj_set, decide_True.
  - intros k Hk. by rewrite assoc_obj_set, decide_False.
Qed.

(** X17.  When [local_tendermint_params] is not a dictionary (a fetched
    body may be any JSON value), [update_tendermint_configuration] raises
    [TypeError] before any request is made and changes nothing. *)
Theorem update_refuses_non_dictionary self :
  (∀ kv, local_tendermint_params self ≠ JObj kv) →
  update_tendermint_configuration params world self = (Raise TypeError, self, []).
Proof.
  intros Hnot. unfold update_tendermint_configuration, bind, read, lift, setitem.
  destruct (local_tendermint_params self) as [| | | | |kv]; try done.
  by destruct (Hnot kv).
Qed.

(** X18.  [start_tendermint] returns [True] exactly when the response is a
    JSON object whose status is 200, and then it has not slept; when it
    returns [False] (any other status, no status at all, or a body that is
    not JSON) it has slept exactly once, for [sleep_time]; it never
    changes the behaviour. *)
Theorem start_tendermint_outcomes self :
  (outcome (start_tendermint params world self) = Ok true ↔
   ∃ kv, start_reply world = Parsed (JObj kv) ∧
         eq_int (default JNull (assoc "status" kv)) 200 = true) ∧
  (outcome (start_tendermint params world self) = Ok true →
   trace (start_tendermint params world self) =
     [HttpRequest "GET" (tendermint_com_url params +:+ "/start") None]) ∧
  (outcome (start_tendermint params world self) = Ok false →
   trace (start_tendermint params world self) =
     [HttpRequest "GET" (tendermint_com_url params +:+ "/start") None;
      Sleep (sleep_time params)]) ∧
  final (start_tendermint params world self) = self.
Proof.
  split_and!.
  - split.
    + run_step_cases; intros Hout; try discriminate Hout.
      match goal with
      | H : Registration.get ?r _ = Ok _ |- _ =>
          destruct r; try discriminate H; cbn in H; injection H as <-
      end.
      eexists. by split.
    + intros (kv & Hreply & Hstatus). run_step_cases; simplify_eq; congruence.
  - run_step_cases; by intros ?.
  - run_step_cases; by intros ?.
  - run_step_cases; done.
Qed.

End StartupSteps.

Lemma get_addresses_registers_agent_witness :
  (Registration.JStr "0xagent", Registration.JStr "localhost:26656")
  ∈ Registration.registered_addresses
      (Registration.final
         (Registration.get_addresses Registration.agent Registration.cooperative
                                     Registration.fresh)).
Proof.
  apply (get_addresses_registers_agent Registration.agent Registration.cooperative
           Registration.fresh).
  reflexivity.
Defined.

Lemma update_posts_and_keeps_seeds_witness :
  ∃ posted,
    Registration.local_tendermint_params
      (Registration.final
         (Registration.update_tendermint_configuration
            Registration.agent Registration.unreachable Registration.ready))
    = Registration.JObj posted ∧
    Registration.assoc "p2p_seeds" posted
    = Some (Registration.JArr [Registration.JStr "localhost:26656"]).
Proof.
  destruct (update_posts_and_keeps_seeds Registration.agent Registration.unreachable
              Registration.ready _ eq_refl) as (posted & _ & Hkept & Hseeds & _).
  by exists posted.
Defined.

Lemma update_refuses_non_dictionary_witness :
  Registration.update_tendermint_configuration
    Registration.agent Registration.cooperative Registration.fresh
  = (Raise TypeError, Registration.fresh, []).
Proof.
  apply update_refuses_non_dictionary. intros kv. discriminate.
Defined.

(** ** Runs of the startup behaviour *)

Section StartupRuns.

Import Registration.

Variable params : Params.
Variable world : World.

Implicit Types (self : Behaviour) (s : Step) (t q : list Action).

Abbreviation start_url := (tendermint_com_url params +:+ "/start").

(** [make_tendermint_request] for each address: one request each, the
    behaviour untouched. *)
Lemma for_each_requests (xs : list Json) self :
  for_each make_tendermint_request xs self = (Ok tt, self, TendermintRequest <$> xs).
Proof.
  induction xs as [|x xs IH]; [done|]. cbn [for_each].
  rewrite bind_run. cbn. by rewrite IH.
Qed.

(** The collecting phase and what follows it. *)
Lemma from_collect_run self :
  from_collect params world self =
    behind (TendermintRequest <$> not_yet_collected self)
           (if is_empty (not_yet_collected self)
            then from_update params world self
            else sleep (sleep_time params) self).
Proof.
  unfold from_collect. rewrite bind_read, bind_run, for_each_requests.
  unfold outcome at 1, final at 1, trace at 1. cbn [fst snd].
  rewrite bind_read. by destruct (not_yet_collected self).
Qed.

Lemma async_act_run self :
  async_act params world self =
    if truthy (local_tendermint_params self)
    then from_registry params world self
    else resume params world ConfigFetch self.
Proof.
  rewrite async_act_from_fetch. destruct (truthy _); cbn [negb]; [|done].
  unfold from_fetch. by rewrite bind_ret.
Qed.

(** What a step leaves to the rest of [async_act]. *)
Definition next_of s : Gen unit :=
  match s with
  | ConfigFetch => from_registry params world
  | RegistryLookup => from_collect params world
  | ConfigUpdate => from_start params world
  | NodeStart => base_async_act params
  end.

Lemma resume_cases self s :
  (∃ e, outcome (run_step params world s self) = Raise e ∧
        resume params world s self =
          (Raise e, final (run_step params world s self),
           trace (run_step params world s self))) ∨
  (outcome (run_step params world s self) = Ok false ∧
   resume params world s self =
     behind (trace (run_step params world s self))
            (sleep (sleep_time params) (final (run_step params world s self)))) ∨
  (outcome (run_step params world s self) = Ok true ∧
   resume params world s self =
     behind (trace (run_step params world s self))
            (next_of s (final (run_step params world s self)))).
Proof.
  destruct (outcome (run_step params world s self)) as [[]|e] eqn:Hout.
  - right. right. split; [done|].
    rewrite (resume_passed params world self (final (run_step params world s self)) s);
      [by destruct s|done].
  - right. left. split; [done|]. by apply resume_failed.
  - left. exists e. split; [done|].
    destruct s; cbn [resume run_step] in *;
      unfold from_fetch, from_update, from_start; by rewrite bind_run, Hout.
Qed.

(** *** The shapes of a run *)

(** A run of [async_act] ends in one of four ways: an exception, one
    sleep, the two sleeps after a failed start, or the registration. *)
Inductive shaped : result unit * Behaviour * list Action → Prop :=
| shaped_raised e self q :
    Forall quiet q → shaped (Raise e, self, q)
| shaped_slept self q :
    Forall quiet q → shaped (Ok tt, self, q ++ [Sleep (sleep_time params)])
| shaped_slept_twice self q c :
    Forall quiet q →
    shaped (Ok tt, self,
            q ++ [HttpRequest "POST" (tendermint_parameter_url params) c;
                  HttpRequest "GET" start_url None;
                  Sleep (sleep_time params); Sleep (sleep_time params)])
| shaped_done self q c :
    Forall quiet q →
    shaped (Ok tt, self,
            q ++ [HttpRequest "POST" (tendermint_parameter_url params) c;
                  HttpRequest "GET" start_url None;
                  SendA2ATransaction (agent_address params); WaitUntilRoundEnd; SetDone]).

Lemma shaped_behind q run : Forall quiet q → shaped run → shaped (behind q run).
Proof.
  intros Hq Hrun. destruct Hrun as [e self q' Hq'|self q' Hq'|self q' c Hq'|self q' c Hq'];
    unfold behind, outcome, final, trace; cbn; rewrite ?app_assoc;
    constructor; by apply Forall_app.
Qed.

Lemma shaped_sleep self : shaped (sleep (sleep_time params) self).
Proof. apply (shaped_slept self []). constructor. Qed.

Lemma update_passed_trace self :
  outcome (update_tendermint_configuration params world self) = Ok true →
  ∃ c, trace (update_tendermint_configuration params world self) =
         [HttpRequest "POST" (tendermint_parameter_url params) c].
Proof.
  unfold update_tendermint_configuration, bind, read, lift, emit, raise, ret,
    set_local_tendermint_params, outcome, trace.
  destruct (local_tendermint_params self); cbn; try done.
  destruct (update_reply world) as [| |response]; cbn; [done|done|].
  destruct (getitem response "status"); cbn; [|done]. intros _. by eexists.
Qed.

Lemma start_cases self :
  (∃ e, start_tendermint params world self =
          (Raise e, self, [HttpRequest "GET" start_url None])) ∨
  start_tendermint params world self =
    (Ok true, self, [HttpRequest "GET" start_url None]) ∨
  start_tendermint params world self =
    (Ok false, self, [HttpRequest "GET" start_url None; Sleep (sleep_time params)]).
Proof.
  unfold start_tendermint, sleep, bind, emit, raise, ret, lift.
  destruct (start_reply world) as [| |response]; cbn; [by eauto|by eauto|].
  destruct (get response "status") as [status|]; cbn; [|by eauto].
  destruct (eq_int status 200); cbn; by eauto.
Qed.

Lemma base_async_act_run self :
  base_async_act params self =
    (Ok tt, self,
     [SendA2ATransaction (agent_address params); WaitUntilRoundEnd; SetDone]).
Proof. done. Qed.

Lemma shaped_from_start c self :
  shaped (behind [HttpRequest "POST" (tendermint_parameter_url params) c]
                 (from_start params world self)).
Proof.
  unfold from_start. rewrite bind_run.
  destruct (start_cases self) as [[e ->]|[->| ->]]; unfold behind, outcome, final, trace; cbn.
  - apply shaped_raised. by repeat constructor.
  - apply (shaped_done self []). constructor.
  - apply (shaped_slept_twice self []). constructor.
Qed.

Lemma shaped_from_update self : shaped (from_update params world self).
Proof.
  destruct (resume_cases self ConfigUpdate) as [(e & _ & Hrun)|[[_ Hrun]|[Hout Hrun]]];
    cbn [resume] in Hrun; rewrite Hrun.
  - apply shaped_raised. by apply quiet_step.
  - apply shaped_behind; [by apply quiet_step|apply shaped_sleep].
  - cbn [run_step next_of] in *. destruct (update_passed_trace _ Hout) as [c ->].
    apply shaped_from_start.
Qed.

Lemma quiet_requests (xs : list Json) : Forall quiet (TendermintRequest <$> xs).
Proof. induction xs; by constructor. Qed.

Lemma shaped_from_collect self : shaped (from_collect params world self).
Proof.
  rewrite from_collect_run. apply shaped_behind; [apply quiet_requests|].
  destruct (is_empty _); [apply shaped_from_update|apply shaped_sleep].
Qed.

Lemma shaped_from_registry self : shaped (from_registry params world self).
Proof.
  rewrite from_registry_run. destruct (is_empty _); [|apply shaped_from_collect].
  destruct (resume_cases self RegistryLookup) as [(e & _ & ->)|[[_ ->]|[_ ->]]].
  - apply shaped_raised. by apply quiet_step.
  - apply shaped_behind; [by apply quiet_step|apply shaped_sleep].
  - apply shaped_behind; [by apply quiet_step|apply shaped_from_collect].
Qed.

(** Every run of [async_act] has one of the four shapes. *)
Lemma shaped_async_act self : shaped (async_act params world self).
Proof.
  rewrite async_act_run. destruct (truthy _); [apply shaped_from_registry|].
  destruct (resume_cases self ConfigFetch) as [(e & _ & ->)|[[_ ->]|[_ ->]]].
  - apply shaped_raised. by apply quiet_step.
  - apply shaped_behind; [by apply quiet_step|apply shaped_sleep].
  - apply shaped_behind; [by apply quiet_step|apply shaped_from_registry].
Qed.

(** X19.  [async_act] completes the behaviour ([set_done]) only at the
    end of a run that has not slept and has not raised, right after the
    registration transaction was sent and the round awaited, and only
    after the configuration was posted to the local node and the node was
    asked to start. *)
Theorem async_act_completes_only_after_start self :
  SetDone ∈ trace (async_act params world self) →
  outcome (async_act params world self) = Ok tt ∧
  sleeps (trace (async_act params world self)) = [] ∧
  ∃ q c, Forall quiet q ∧
         trace (async_act params world self) =
           q ++ [HttpRequest "POST" (tendermint_parameter_url params) c;
                 HttpRequest "GET" start_url None;
                 SendA2ATransaction (agent_address params); WaitUntilRoundEnd; SetDone].
Proof.
  pose proof (shaped_async_act self) as Hshaped.
  destruct Hshaped as [e self' q Hq|self' q Hq|self' q c Hq|self' q c Hq];
    unfold outcome, trace; cbn; intros Hin.
  - by apply not_done_quiet in Hin.
  - apply elem_of_app in Hin as [Hin|Hin]; [by apply not_done_quiet in Hin|].
    by apply list_elem_of_singleton in Hin.
  - apply elem_of_app in Hin as [Hin|Hin]; [by apply not_done_quiet in Hin|].
    repeat (apply elem_of_cons in Hin as [?|Hin]; [done|]). by apply elem_of_nil in Hin.
  - split_and!; [done| |by eauto].
    fold (sleeps (q ++ [HttpRequest "POST" (tendermint_parameter_url params) c;
                        HttpRequest "GET" start_url None;
                        SendA2ATransaction (agent_address params); WaitUntilRoundEnd;
                        SetDone])).
    by rewrite sleeps_app, (sleeps_quiet _ Hq).
Qed.

(** X20.  A run of [async_act] sleeps at most twice, each time for
    [sleep_time]: not at all when it raises, once when a step before the
    start of the node fails or peers are missing, and twice only behind
    the request to start the node. *)
Theorem async_act_sleeps_at_most_twice self :
  (sleeps (trace (async_act params world self)) = [] ∨
   sleeps (trace (async_act params world self)) = [sleep_time params] ∨
   (sleeps (trace (async_act params world self)) = [sleep_time params; sleep_time params] ∧
    HttpRequest "GET" start_url None ∈ trace (async_act params world self))) ∧
  (∀ e, outcome (async_act params world self) = Raise e →
        sleeps (trace (async_act params world self)) = []).
Proof.
  pose proof (shaped_async_act self) as Hshaped.
  destruct Hshaped as [e self' q Hq|self' q Hq|self' q c Hq|self' q c Hq];
    unfold outcome, trace; cbn [fst snd];
    rewrite ?sleeps_app, ?(sleeps_quiet _ Hq); cbn.
  - by split; [left|].
  - by split; [right; left|].
  - split; [right; right|done]. split; [done|].
    apply elem_of_app. right. apply elem_of_cons. right. by left.
  - by split; [left|].
Qed.


(** The final state of a run, step by step. *)
Lemma final_from_registry (I : Behaviour → Prop) :
  (∀ s self, s ≠ ConfigFetch → I self → I (final (run_step params world s self))) →
  ∀ self, I self → I (final (from_registry params world self)).
Proof.
  intros Hstep.
  assert (∀ self, I self → I (final (from_start params world self))) as Hstart.
  { intros self HI.
    destruct (resume_cases self NodeStart) as [(e & _ & Hrun)|[[_ Hrun]|[_ Hrun]]];
      cbn [resume] in Hrun; rewrite Hrun; by apply Hstep. }
  assert (∀ self, I self → I (final (from_update params world self))) as Hupdate.
  { intros self HI.
    destruct (resume_cases self ConfigUpdate) as [(e & _ & Hrun)|[[_ Hrun]|[_ Hrun]]];
      cbn [resume] in Hrun; rewrite Hrun; [by apply Hstep..|].
    apply Hstart. by apply Hstep. }
  assert (∀ self, I self → I (final (from_collect params world self))) as Hcollect.
  { intros self HI. rewrite from_collect_run.
    destruct (is_empty _); [by apply Hupdate|done]. }
  intros self HI. rewrite from_registry_run. destruct (is_empty _); [|by apply Hcollect].
  destruct (resume_cases self RegistryLookup) as [(e & _ & ->)|[[_ ->]|[_ ->]]];
    [by apply Hstep..|].
  apply Hcollect. by apply Hstep.
Qed.

Lemma final_async_act (I : Behaviour → Prop) :
  (∀ s self, I self → I (final (run_step params world s self))) →
  ∀ self, I self → I (final (async_act params world self)).
Proof.
  intros Hstep self HI. rewrite async_act_run.
  destruct (truthy _); [by apply (final_from_registry I); [intros; apply Hstep|]|].
  destruct (resume_cases self ConfigFetch) as [(e & _ & ->)|[[_ ->]|[_ ->]]];
    [by apply Hstep..|].
  apply (final_from_registry I); [intros; by apply Hstep|by apply Hstep].
Qed.

(** Unfolds a step down to the answers of the world. *)
Ltac step_cases :=
  unfold get_addresses, is_correct_contract, get_service_info,
    get_tendermint_configuration, update_tendermint_configuration, start_tendermint,
    sleep, bind, emit, ret, raise, lift, read, set_registered_addresses,
    set_local_tendermint_params, outcome, final, trace;
  repeat case_match; simplify_eq; cbn in *.

Lemma step_keeps_registered s self :
  registered_addresses self ≠ [] →
  registered_addresses (final (run_step params world s self)) ≠ [].
Proof.
  destruct s; cbn [run_step]; step_cases; try done.
  intros _. apply dict_set_nonempty.
Qed.

Lemma step_keeps_configuration s self :
  s ≠ ConfigFetch →
  truthy (local_tendermint_params self) = true →
  truthy (local_tendermint_params (final (run_step params world s self))) = true.
Proof.
  intros Hs. destruct s; [done|..]; cbn [run_step]; step_cases; try done;
    match goal with
    | H : setitem ?x _ _ = Ok _ |- _ => destruct x; try discriminate H; cbn in H
    end; simplify_eq; intros _; cbn;
    match goal with |- context [obj_set ?k ?v ?kv] => by destruct kv as [|[? ?] ?]; cbn;
      try case_decide end.
Qed.

Lemma step_keeps_collected s self :
  collected (final (run_step params world s self)) = collected self.
Proof. destruct s; cbn [run_step]; by step_cases. Qed.

(** X22.  A startup step whose result is held when [async_act] is entered
    is still held when the run is over, however it ends: once fetched
    (resp. looked up) the configuration (resp. the registered addresses)
    stays, so that no later run repeats the step. *)
Theorem async_act_keeps_held_steps self s :
  held self s → held (final (async_act params world self)) s.
Proof.
  destruct s; cbn [held]; [| |done..].
  - intros Hlocal. rewrite async_act_run, Hlocal.
    by apply (final_from_registry
                (λ self', truthy (local_tendermint_params self') = true));
      [intros; apply step_keeps_configuration|].
  - by apply (final_async_act (λ self', registered_addresses self' ≠ []));
      intros; apply step_keeps_registered.
Qed.

(** X23.  [async_act] never writes the shared dictionary [collected]:
    whatever the world answers, it is after the run what it was before. *)
Theorem async_act_leaves_collected self :
  collected (final (async_act params world self)) = collected self.
Proof.
  apply (final_async_act (λ self', collected self' = collected self)); [|done].
  intros s self' <-. apply step_keeps_collected.
Qed.

(** X24.  The guards are exact: a run entered without a configuration the
    guard finds true (unset or empty) begins with the fetch of the
    configuration, and a run that holds the configuration but no
    registered address, with a registry address configured, begins with
    the call of [verify_contract]. *)
Theorem async_act_attempts_steps_not_held self :
  (truthy (local_tendermint_params self) = false →
   ∃ t, trace (async_act params world self) =
          HttpRequest "GET" (tendermint_parameter_url params) None :: t) ∧
  (truthy (local_tendermint_params self) = true →
   registered_addresses self = [] →
   is_Some (service_registry_address params) →
   ∃ t, trace (async_act params world self) = ContractCall "verify_contract" :: t).
Proof.
  split.
  - intros Hlocal. rewrite async_act_run, Hlocal.
    destruct (resume_cases self ConfigFetch) as [(e & _ & ->)|[[_ ->]|[_ ->]]];
      unfold behind, trace at 1; cbn [snd run_step]; rewrite fetch_trace; by eexists.
  - intros Hlocal Hreg [address Haddress].
    rewrite async_act_run, Hlocal, from_registry_run, Hreg. cbn [is_empty].
    assert (∃ t, trace (get_addresses params world self)
                 = ContractCall "verify_contract" :: t) as [t Ht].
    { revert Haddress. step_cases; intros ?; simplify_eq; by eexists. }
    destruct (resume_cases self RegistryLookup) as [(e & _ & ->)|[[_ ->]|[_ ->]]];
      unfold behind, trace at 1; cbn [snd run_step]; rewrite Ht; by eexists.
Qed.

End StartupRuns.

Lemma async_act_completes_only_after_start_witness :
  Registration.outcome
    (Registration.async_act Registration.agent Registration.cooperative Registration.ready)
  = Ok tt ∧
  Registration.sleeps
    (Registration.trace
       (Registration.async_act Registration.agent Registration.cooperative
                               Registration.ready))
  = [].
Proof.
  destruct (async_act_completes_only_after_start
              Registration.agent Registration.cooperative Registration.ready)
    as (Hout & Hsleeps & _).
  - vm_compute. repeat constructor.
  - by split.
Defined.


Lemma async_act_keeps_held_steps_witness :
  Registration.held
    (Registration.final
       (Registration.async_act Registration.agent Registration.start_fails
                               Registration.ready))
    Registration.RegistryLookup.
Proof.
  apply (async_act_keeps_held_steps Registration.agent Registration.start_fails
           Registration.ready Registration.RegistryLookup).
  cbn. discriminate.
Defined.
